(** * ner-demo: the [/api/ner] request handler and the page's renderers

    [app.py] holds a Flask handler ([api_ner]) and, inside [INDEX_HTML], the
    JavaScript of the page ([escapeHtml], [renderHighlighted],
    [renderEntitiesTable] and the click handlers).  Both are embedded here
    and the statements of the specification are checked against them; the
    start of the script, up to the loaded model, is embedded as well. *)

From Stdlib Require Import ZArith List String Ascii.
From Stdlib Require Import Floats.SpecFloat.
From stdpp Require Import gmap list sorting pretty.

#[local] Set Warnings "-register-all".

(** ** Strings

    A Python [str] is a sequence of code points and a JavaScript string a
    sequence of UTF-16 code units; both are lists of numbers here. *)

Abbreviation pystr := (list N) (only parsing).
Abbreviation jsstr := (list N) (only parsing).

(** The characters of an ASCII literal of the source. *)
Definition lit (s : string) : list N := N_of_ascii <$> list_ascii_of_string s.

(** ** Python values, as [request.get_json] produces them *)

Inductive pyval :=
  | PNone
  | PBool (b : bool)
  | PInt (z : Z)
  | PFloat (f : spec_float)
  | PStr (s : pystr)
  | PList (l : list pyval)
  | PDict (d : gmap (list N) pyval).

(** Truth value of an object, as [or] and [not] test it. *)
Definition truthy (v : pyval) : bool :=
  match v with
  | PNone => false
  | PBool b => b
  | PInt z => negb (z =? 0)%Z
  | PFloat (S754_zero _) => false
  | PFloat _ => true
  | PStr s => negb (bool_decide (s = []))
  | PList l => match l with [] => false | _ => true end
  | PDict d => negb (bool_decide (d = ∅))
  end.

(** [a or b] *)
Definition py_or (a b : pyval) : pyval := if truthy a then a else b.

Inductive exc :=
  | AttributeError (attr : pystr)
  | ExtractionError (msg : pystr).

Inductive result (A : Type) :=
  | Ok (a : A)
  | Raise (e : exc).
Arguments Ok {A} a.
Arguments Raise {A} e.

(** [obj.get(key, default)]: only a [dict] has the attribute. *)
Definition py_get (obj : pyval) (key : pystr) (default : pyval) : result pyval :=
  match obj with
  | PDict d => Ok (match d !! key with Some v => v | None => default end)
  | _ => Raise (AttributeError (lit "get"))
  end.

(** ** The request and the response *)

(** What [request.get_json(silent=True)] can find in a request. *)
Inductive req_body :=
  | BodyAbsent
  | BodyInvalid
  | BodyJson (v : pyval).

Definition get_json_silent (r : req_body) : pyval :=
  match r with
  | BodyJson v => v
  | BodyAbsent | BodyInvalid => PNone
  end.

Record response := Response { resp_json : pyval; resp_status : nat }.

Inductive outcome :=
  | Returned (r : response)
  | Raised (e : exc).

(** Flask answers an exception that leaves the view with status 500. *)
Definition http_status (o : outcome) : nat :=
  match o with
  | Returned r => resp_status r
  | Raised _ => 500
  end.

(** An entity of [doc.ents]. *)
Record Span := mkSpan {
  span_text : pystr;
  label_ : pystr;
  start_char : Z;
  end_char : Z
}.

(** ** [str.strip] *)

Section Strip.
Variable isspace : N → bool.

Fixpoint lstrip (s : pystr) : pystr :=
  match s with
  | [] => []
  | c :: s' => if isspace c then lstrip s' else s
  end.

Definition rstrip (s : pystr) : pystr := reverse (lstrip (reverse s)).

Definition strip (s : pystr) : pystr := rstrip (lstrip s).
End Strip.

(** The white space of [str.strip()], from CPython's Unicode tables. *)
Definition py_isspace (c : N) : bool :=
  ((9 <=? c) && (c <=? 13) || (28 <=? c) && (c <=? 32) || (c =? 133) || (c =? 160)
   || (c =? 5760) || (8192 <=? c) && (c <=? 8202) || (c =? 8232) || (c =? 8233)
   || (c =? 8239) || (c =? 8287) || (c =? 12288))%N.

(** ** [api_ner] *)

Definition error_body : pyval :=
  PDict {[ lit "error" := PStr (lit "No text provided") ]}.

Definition entity_dict (ent : Span) : pyval :=
  PDict (<[ lit "text" := PStr (span_text ent) ]>
        (<[ lit "label" := PStr (label_ ent) ]>
        (<[ lit "start" := PInt (start_char ent) ]>
        (<[ lit "end" := PInt (end_char ent) ]> ∅)))).

(** [for ent in doc.ents: entities.append({...})] *)
Definition collect_entities (ents : list Span) : list pyval :=
  fold_left (λ entities ent, entities ++ [entity_dict ent]) ents [].

Definition entities_body (entities : list pyval) : pyval :=
  PDict {[ lit "entities" := PList entities ]}.

Section Handler.
(** The white space of [str.strip] and the loaded model [nlp], whose call
    yields [doc.ents] or raises. *)
Variable isspace : N → bool.
Variable nlp : pystr → result (list Span).

Definition api_ner (req : req_body) : outcome :=
  let data := py_or (get_json_silent req) (PDict ∅) in
  match py_get data (lit "text") (PStr []) with
  | Raise e => Raised e
  | Ok text =>
      match text with
      | PStr s =>
          if bool_decide (strip isspace s = []) then
            Returned (Response error_body 400)
          else
            match nlp s with
            | Raise e => Raised e
            | Ok ents =>
                Returned (Response (entities_body (collect_entities ents)) 200)
            end
      | _ => Returned (Response error_body 400)
      end
  end.
End Handler.

(** ** The script of the page *)

(** An element of the [entities] array of a response. *)
Record Entity := mkEntity {
  e_text : jsstr;
  e_label : jsstr;
  e_start : Z;
  e_end : Z
}.

(** [str.replace(/c/g, r)] for a one-character pattern. *)
Definition replace_all (c : N) (r : jsstr) (str : jsstr) : jsstr :=
  flat_map (λ x, if (x =? c)%N then r else [x]) str.

Definition escapeHtml (str : jsstr) : jsstr :=
  replace_all 62 (lit "&gt;") (replace_all 60 (lit "&lt;") (replace_all 38 (lit "&amp;") str)).

(** An argument of [String.prototype.slice] made relative to the string. *)
Definition rel_index (len i : Z) : Z :=
  if (i <? 0)%Z then Z.max (len + i) 0 else Z.min i len.

(** [s.slice(start, end)] *)
Definition slice (s : jsstr) (start end_ : Z) : jsstr :=
  let len := Z.of_nat (length s) in
  let from := rel_index len start in
  let to := rel_index len end_ in
  take (Z.to_nat (to - from)) (drop (Z.to_nat from) s).

(** [s.slice(start)] *)
Definition slice_from (s : jsstr) (start : Z) : jsstr :=
  slice s start (Z.of_nat (length s)).

(** [Array.prototype.sort(cmp)]: the sort is stable, so for a consistent
    comparator the result is the one of a stable insertion sort. *)
Section ArraySort.
Context {A : Type} (cmp : A → A → Z).

Fixpoint sort_insert (a : A) (l : list A) : list A :=
  match l with
  | [] => [a]
  | b :: l' => if (cmp a b <=? 0)%Z then a :: l else b :: sort_insert a l'
  end.

Definition Array_sort (l : list A) : list A := foldr sort_insert [] l.
End ArraySort.

(** [(a,b)=>a.start - b.start] *)
Definition by_start (a b : Entity) : Z := (e_start a - e_start b)%Z.

(** [String(n)] for an integer [n] that a number holds exactly and prints
    in full, that is for [-(2^53 - 1) ≤ n ≤ 2^53 - 1]: the decimal numeral.
    Beyond that range a number is rounded, and from [10^21] on it is
    printed with an exponent; the offsets of a text stay far below. *)
Definition num_to_string (n : Z) : jsstr := lit (pretty n).

Definition dq : jsstr := [34%N].

Definition COLOR_MAP : gmap (list N) (list N) :=
  list_to_map
    [ (lit "PERSON", lit "#ffe8e6"); (lit "ORG", lit "#e8fff0");
      (lit "GPE", lit "#fff6e6"); (lit "LOC", lit "#eef2ff");
      (lit "DATE", lit "#fff0f5"); (lit "TIME", lit "#f0fff5");
      (lit "MONEY", lit "#fff7e6"); (lit "PERCENT", lit "#f3fff6") ].

(** What an element shows: text set through [textContent], or markup set
    through [innerHTML]. *)
Inductive content :=
  | TextContent (s : jsstr)
  | InnerHTML (html : jsstr).

(** The value of the textarea, the two panels, and the arrays of the heap. *)
Record page := Page {
  inputText : jsstr;
  highlight : content;
  entitiesDiv : content;
  arrays : gmap positive (list Entity)
}.

Definition set_highlight (c : content) (pg : page) : page :=
  Page (inputText pg) c (entitiesDiv pg) (arrays pg).

Definition set_entitiesDiv (c : content) (pg : page) : page :=
  Page (inputText pg) (highlight pg) c (arrays pg).

Definition set_array (l : positive) (es : list Entity) (pg : page) : page :=
  Page (inputText pg) (highlight pg) (entitiesDiv pg) (<[l := es]> (arrays pg)).

(** The elements of the array at [l]. *)
Definition array_at (l : positive) (pg : page) : list Entity :=
  default [] (arrays pg !! l).

(** An array literal: a new array of the heap. *)
Definition new_array (es : list Entity) (pg : page) : positive * page :=
  let l := fresh (dom (arrays pg)) in (l, set_array l es pg).

(** The [entities] argument of the renderers. *)
Inductive jsval :=
  | JUndefined
  | JNull
  | JArray (l : positive).

Definition div_open : jsstr := lit "<div style=" ++ dq ++ lit "line-height:1.5;" ++ dq ++ lit ">".
Definition div_close : jsstr := lit "</div>".

Definition mark_open (bg : jsstr) : jsstr :=
  lit "<mark class=" ++ dq ++ lit "entity" ++ dq ++ lit " style=" ++ dq
    ++ lit "background:" ++ bg ++ dq ++ lit ">".

Definition mark_label (label : jsstr) : jsstr :=
  lit " <span class=" ++ dq ++ lit "label" ++ dq ++ lit ">[" ++ label ++ lit "]</span></mark>".

Definition table_head : jsstr :=
  lit "<table><thead><tr><th>Text</th><th>Label</th><th>Span</th></tr></thead><tbody>".
Definition table_foot : jsstr := lit "</tbody></table>".

Definition table_row (e : Entity) : jsstr :=
  lit "<tr><td>" ++ escapeHtml (e_text e) ++ lit "</td><td>" ++ escapeHtml (e_label e)
    ++ lit "</td><td>" ++ num_to_string (e_start e) ++ [8211%N] ++ num_to_string (e_end e)
    ++ lit "</td></tr>".

Section Page.
(** [COLOR_MAP[label]] also finds what [COLOR_MAP] inherits from
    [Object.prototype]; [inherited] gives the text of such a property. *)
Variable inherited : jsstr → option jsstr.

(** [COLOR_MAP[label] || '#f2f9ff'] *)
Definition bg_of (label : jsstr) : jsstr :=
  match COLOR_MAP !! label with
  | Some c => c
  | None => default (lit "#f2f9ff") (inherited label)
  end.

Definition mark (text : jsstr) (e : Entity) : jsstr :=
  let label := e_label e in
  let span := escapeHtml (slice text (e_start e) (e_end e)) in
  let bg := bg_of label in
  mark_open bg ++ span ++ mark_label label.

(** The body of the loop of [renderHighlighted], on [(cursor, out)]. *)
Definition highlight_step (text : jsstr) (st : Z * jsstr) (e : Entity) : Z * jsstr :=
  let '(cursor, out) := st in
  let out :=
    if (cursor <? e_start e)%Z
    then out ++ escapeHtml (slice text cursor (e_start e))
    else out in
  (e_end e, out ++ mark text e).

Definition renderHighlighted (text : jsstr) (entities : jsval) (pg : page) : page :=
  match entities with
  | JUndefined | JNull => set_highlight (TextContent text) pg
  | JArray l =>
      if (length (array_at l pg) =? 0)%nat then set_highlight (TextContent text) pg
      else
        let pg := set_array l (Array_sort by_start (array_at l pg)) pg in
        let '(cursor, out) := fold_left (highlight_step text) (array_at l pg) (0%Z, []) in
        let out :=
          if (cursor <? Z.of_nat (length text))%Z
          then out ++ escapeHtml (slice_from text cursor)
          else out in
        set_highlight (InnerHTML (div_open ++ out ++ div_close)) pg
  end.

Definition renderEntitiesTable (entities : jsval) (pg : page) : page :=
  match entities with
  | JUndefined | JNull => set_entitiesDiv (InnerHTML (lit "No entities detected.")) pg
  | JArray l =>
      if (length (array_at l pg) =? 0)%nat
      then set_entitiesDiv (InnerHTML (lit "No entities detected.")) pg
      else
        let html := fold_left (λ html e, html ++ table_row e) (array_at l pg) table_head in
        set_entitiesDiv (InnerHTML (html ++ table_foot)) pg
  end.

(** [analyzeBtn.onclick], from the parsed response on:
    [const ents = data.entities || []; renderHighlighted(inputText.value, ents);
     renderEntitiesTable(ents);] *)
Definition show_response (data_entities : jsval) (pg : page) : page :=
  let '(ents, pg) :=
    match data_entities with
    | JArray l => (JArray l, pg)
    | JUndefined | JNull => let '(l, pg) := new_array [] pg in (JArray l, pg)
    end in
  let pg := renderHighlighted (inputText pg) ents pg in
  renderEntitiesTable ents pg.

(** [clearBtn.onclick] *)
Definition clearBtn_onclick (pg : page) : page :=
  let '(l1, pg) := new_array [] pg in
  let pg := renderHighlighted (inputText pg) (JArray l1) pg in
  let '(l2, pg) := new_array [] pg in
  renderEntitiesTable (JArray l2) pg.
End Page.

(** ** [analyzeBtn.onclick] *)

(** An exception object, with its [name] and its [message]. *)
Record js_error := JsError { err_name : jsstr; err_message : jsstr }.

(** [String(err)], that is [Error.prototype.toString]. *)
Definition error_toString (err : js_error) : jsstr :=
  if bool_decide (err_name err = []) then err_message err
  else if bool_decide (err_message err = []) then err_name err
  else err_name err ++ lit ": " ++ err_message err.

(** [a || b] on strings: the empty string is false. *)
Definition js_or (a b : jsstr) : jsstr := if bool_decide (a = []) then b else a.

(** What the awaited calls of the handler come to: an exception ([fetch],
    [resp.text()] or [resp.json()] rejects, or [data] has no properties),
    an answer that is not [ok] with its body, or an [ok] answer whose
    [data.entities] is an array of entities or is not there. *)
Inductive fetch_result :=
  | Thrown (err : js_error)
  | NotOk (t : jsstr)
  | OkData (entities : option (list Entity)).

(** The page with its error line and the Analyze button. *)
Record ui := Ui {
  ui_page : page;
  errorDiv : content;
  analyzeBtn_disabled : bool;
  analyzeBtn_text : jsstr
}.

Section Analyze.
Variable inherited : jsstr → option jsstr.

(** The handler up to its first [await]. *)
Definition analyze_begin (u : ui) : ui :=
  Ui (ui_page u) (TextContent []) true (lit "Analyzing...").

(** The [text] of the request: [JSON.stringify({ text: inputText.value })]. *)
Definition analyze_request (u : ui) : jsstr := inputText (ui_page u).

(** The rest of the [try] block: an exception, or the page rendered. *)
Definition analyze_try (r : fetch_result) (pg : page) : js_error + page :=
  match r with
  | Thrown err => inl err
  | NotOk t => inl (JsError (lit "Error") (js_or t (lit "Server error")))
  | OkData (Some es) =>
      let '(l, pg) := new_array es pg in inr (show_response inherited (JArray l) pg)
  | OkData None => inr (show_response inherited JUndefined pg)
  end.

(** The handler from the answer on: [try], [catch] and [finally]. *)
Definition analyze_end (r : fetch_result) (u : ui) : ui :=
  let u :=
    match analyze_try r (ui_page u) with
    | inr pg => Ui pg (errorDiv u) (analyzeBtn_disabled u) (analyzeBtn_text u)
    | inl err =>
        Ui (ui_page u) (TextContent (js_or (err_message err) (error_toString err)))
           (analyzeBtn_disabled u) (analyzeBtn_text u)
    end in
  Ui (ui_page u) (errorDiv u) false (lit "Analyze").
End Analyze.

(** ** The start of the script *)

Inductive py_module := flask | flask_cors | spacy.

#[global] Instance py_module_eq_dec : EqDecision py_module.
Proof. solve_decision. Defined.

(** The child processes of the script. *)
Inductive command :=
  | pip_install (packages : list string)
  | spacy_download (model : string).

Inductive startup_exc :=
  | ImportError (m : py_module)
  | CalledProcessError (c : command)
  | LoadError.

(** What the script finds outside: whether a module can be imported, before
    and after pip has run, whether the child processes succeed, and whether
    [spacy.load(MODEL)] does, at its first and at its second call. *)
Record world := World {
  importable : bool → py_module → bool;
  pip_succeeds : bool;
  model_loads : bool;
  download_succeeds : bool;
  model_loads_after : bool
}.

Inductive startup :=
  | Started (have_cors : bool)
  | Died (e : startup_exc).

(** [import m]: a module imported before is found in [sys.modules]. *)
Definition py_import (w : world) (pip_ran : bool) (m : py_module)
    (modules : list py_module) : option (list py_module) :=
  if bool_decide (m ∈ modules) then Some modules
  else if importable w pip_ran m then Some (m :: modules)
  else None.

Definition MODEL : string := "en_core_web_sm".

(** Lines 56 to 70, with the modules imported so far and the child
    processes run so far. *)
Definition load_model (w : world) (pip_ran have_cors : bool) (modules : list py_module)
    (trace : list command) : startup * list command :=
  let spacy_bound := bool_decide (is_Some (py_import w pip_ran spacy modules)) in
  if spacy_bound && model_loads w then (Started have_cors, trace)
  else
    let trace := trace ++ [spacy_download MODEL] in
    if download_succeeds w then
      if spacy_bound && model_loads_after w then (Started have_cors, trace)
      else (Died LoadError, trace)
    else (Died (CalledProcessError (spacy_download MODEL)), trace).

(** Lines 47 to 52: [from flask import ...] once more, and the application. *)
Definition after_install (w : world) (pip_ran have_cors : bool) (modules : list py_module)
    (trace : list command) : startup * list command :=
  match py_import w pip_ran flask modules with
  | None => (Died (ImportError flask), trace)
  | Some modules => load_model w pip_ran have_cors modules trace
  end.

(** The script from its first import to the loaded model: how it ends and
    the child processes it has run. *)
Definition run_script (w : world) : startup * list command :=
  match py_import w false flask [] with
  | None => (Died (ImportError flask), [])
  | Some modules =>
      let '(have_cors, modules) :=
        match py_import w false flask_cors modules with
        | Some modules' => (true, modules')
        | None => (false, modules)
        end in
      let missing : list string := [] in
      let '(missing, modules) :=
        match py_import w false flask modules with
        | Some modules' => (missing, modules')
        | None => (missing ++ ["Flask"%string], modules)
        end in
      let '(missing, modules) :=
        match py_import w false spacy modules with
        | Some modules' => (missing, modules')
        | None => (missing ++ ["spacy"%string], modules)
        end in
      match missing with
      | [] => after_install w false have_cors modules []
      | _ =>
          if pip_succeeds w
          then after_install w true have_cors modules [pip_install missing]
          else (Died (CalledProcessError (pip_install missing)), [pip_install missing])
      end
  end.

(** ** Notions of the specification *)

(** Empty, or white space only. *)
Definition blank (isspace : N → bool) (s : pystr) : Prop :=
  Forall (λ c, isspace c = true) s.

(** The [text] field of a JSON object is missing, is not a string, or is
    blank. *)
Inductive no_text (isspace : N → bool) (d : gmap (list N) pyval) : Prop :=
  | text_missing : d !! lit "text" = None → no_text isspace d
  | text_not_str v : d !! lit "text" = Some v → (∀ s, v ≠ PStr s) → no_text isspace d
  | text_blank s : d !! lit "text" = Some (PStr s) → blank isspace s → no_text isspace d.

(** The four kinds of request the handler tells apart. *)
Inductive request_kind (isspace : N → bool) (req : req_body) : Prop :=
  | kind_falsy : truthy (get_json_silent req) = false → request_kind isspace req
  | kind_not_dict v :
      req = BodyJson v → truthy v = true → (∀ d, v ≠ PDict d) → request_kind isspace req
  | kind_no_text d :
      req = BodyJson (PDict d) → no_text isspace d → request_kind isspace req
  | kind_usable d s :
      req = BodyJson (PDict d) → d !! lit "text" = Some (PStr s) → ¬ blank isspace s →
      request_kind isspace req.

(** The span contract of the extraction service, on the text it was given. *)
Definition span_ok (text : pystr) (ent : Span) : Prop :=
  (0 ≤ start_char ent < end_char ent ∧ end_char ent ≤ Z.of_nat (length text))%Z.

Definition span_contract (nlp : pystr → result (list Span)) : Prop :=
  ∀ text ents, nlp text = Ok ents → Forall (span_ok text) ents.

(** An element of the [entities] array whose offsets lie in [text]. *)
Definition offsets_in (text : pystr) (j : pyval) : Prop :=
  ∃ d st en,
    j = PDict d ∧ d !! lit "start" = Some (PInt st) ∧ d !! lit "end" = Some (PInt en) ∧
    (0 ≤ st < en ∧ en ≤ Z.of_nat (length text))%Z.

(** Ascending by [start]. *)
Definition ascending : list Entity → Prop :=
  StronglySorted (λ a b, (e_start a ≤ e_start b)%Z).

(** The plain text from position [a] to position [b]; there is none when
    [a] has reached [b]. *)
Definition plain (text : jsstr) (a b : Z) : jsstr :=
  if (a <? b)%Z then slice text a b else [].

(** Text shown literally displays as its escaped form does as markup. *)
Definition as_markup (c : content) : jsstr :=
  match c with
  | TextContent s => escapeHtml s
  | InnerHTML html => html
  end.

(** The [entities] argument holds no entity. *)
Definition no_entities (entities : jsval) (pg : page) : Prop :=
  match entities with
  | JUndefined | JNull => True
  | JArray l => arrays pg !! l = Some []
  end.

(** The table of the specification: one row per span, in the order given. *)
Definition spec_table (spans : list Entity) : jsstr :=
  match spans with
  | [] => lit "No entities detected."
  | _ => table_head ++ concat (table_row <$> spans) ++ table_foot
  end.

Section PageSpec.
Variable inherited : jsstr → option jsstr.

(** Steps 2 to 4 of the algorithm of the specification, on spans already
    in order: the gap before a span, the span, and on from its end; after
    the last span the rest of the text. *)
Fixpoint spec_walk (text : jsstr) (cursor : Z) (spans : list Entity) : jsstr :=
  match spans with
  | [] => escapeHtml (plain text cursor (Z.of_nat (length text)))
  | s :: rest =>
      escapeHtml (plain text cursor (e_start s))
        ++ mark inherited text s
        ++ spec_walk text (e_end s) rest
  end.
End PageSpec.

(** Escaping, as the specification means it: [&], [<] and [>] are written
    as character references, every other character stays. *)
Definition spec_escape_char (c : N) : jsstr :=
  if (c =? 38)%N then lit "&amp;"
  else if (c =? 60)%N then lit "&lt;"
  else if (c =? 62)%N then lit "&gt;"
  else [c].

Definition spec_escape (s : jsstr) : jsstr := flat_map spec_escape_char s.

(** The highlight of a substring: a [mark] element of the given background
    around it, followed inside the element by the label in brackets. *)
Definition spec_highlight (bg substring label : jsstr) : jsstr :=
  lit "<mark class=" ++ dq ++ lit "entity" ++ dq ++ lit " style=" ++ dq
    ++ lit "background:" ++ bg ++ dq ++ lit ">"
    ++ substring
    ++ lit " <span class=" ++ dq ++ lit "label" ++ dq ++ lit ">[" ++ label
    ++ lit "]</span></mark>".

Section RenderSpec.
Variable inherited : jsstr → option jsstr.

(** Steps 2 to 4 of the algorithm of the specification, written out: from
    the cursor, for each span in turn, the escaped plain text up to the
    span's start, then the highlighted escaped substring
    [text[span.start:span.end]] with the span's label, the cursor moving
    to the span's end; after the last span the escaped plain text from the
    cursor to the end of the text. *)
Fixpoint spec_render (text : jsstr) (cursor : Z) (spans : list Entity) : jsstr :=
  match spans with
  | [] => spec_escape (plain text cursor (Z.of_nat (length text)))
  | s :: rest =>
      spec_escape (plain text cursor (e_start s))
        ++ spec_highlight (bg_of inherited (e_label s))
             (spec_escape (slice text (e_start s) (e_end s))) (e_label s)
        ++ spec_render text (e_end s) rest
  end.
End RenderSpec.

(** Spans that follow one another from [cursor] on inside a text of [len]
    characters: each starts at or after the end of the one before and
    does not end before it starts. *)
Fixpoint chained (cursor len : Z) (spans : list Entity) : Prop :=
  match spans with
  | [] => (cursor ≤ len)%Z
  | e :: rest =>
      (cursor ≤ e_start e ∧ e_start e ≤ e_end e)%Z ∧ chained (e_end e) len rest
  end.

(** The characters that open and close a tag. *)
Definition is_angle (c : N) : Prop := c = 60%N ∨ c = 62%N.

#[global] Instance is_angle_dec (c : N) : Decision (is_angle c) :=
  decide (c = 60%N ∨ c = 62%N).

(** An integer that a JavaScript number holds exactly
    ([Number.isSafeInteger]). *)
Definition safe_integer (n : Z) : Prop := (- (2 ^ 53 - 1) ≤ n ≤ 2 ^ 53 - 1)%Z.

(** A decimal digit or the minus sign. *)
Definition is_numeral (c : N) : Prop := c = 45%N ∨ (48 ≤ c ∧ c ≤ 57)%N.

(** A character that [escapeHtml] replaces. *)
Definition is_special (c : N) : Prop := c = 38%N ∨ c = 60%N ∨ c = 62%N.

(** ** Sample data *)

(** A service that finds the first character of a text. *)
Definition first_char_nlp (text : pystr) : result (list Span) :=
  match text with
  | [] => Ok []
  | c :: _ => Ok [mkSpan [c] (lit "X") 0 1]
  end.

(** A page of a browser in which [COLOR_MAP] inherits nothing. *)
Definition nothing_inherited (label : jsstr) : option jsstr := None.

Definition sample_text : jsstr := lit "Tom & <Ann> met in Rome.".
Definition tom : Entity := mkEntity (lit "Tom") (lit "PERSON") 0 3.
Definition ann : Entity := mkEntity (lit "<Ann>") (lit "<b>") 6 11.
Definition rome : Entity := mkEntity (lit "Rome") (lit "GPE") 19 23.
Definition tom_and : Entity := mkEntity (lit "Tom &") (lit "ORG") 0 5.
Definition and_ann : Entity := mkEntity (lit "& <Ann>") (lit "PERSON") 4 11.

Definition sample_page (es : list Entity) : page :=
  Page sample_text (TextContent []) (InnerHTML (lit "No entities yet.")) {[ 1%positive := es ]}.

(** * The request handler *)

Section StripFacts.
Variable isspace : N → bool.

Lemma lstrip_nil_iff s : lstrip isspace s = [] ↔ blank isspace s.
Proof.
  unfold blank. induction s as [|c s IH]; simpl.
  - split; [constructor | done].
  - destruct (isspace c) eqn:Hc.
    + rewrite IH. split; [by constructor | by inversion 1].
    + split; [done | inversion 1; congruence].
Qed.

(** What [lstrip] leaves does not start with white space. *)
Lemma lstrip_blank_nil s : blank isspace (lstrip isspace s) → lstrip isspace s = [].
Proof.
  induction s as [|c s IH]; simpl; [done|].
  destruct (isspace c) eqn:Hc; [done|].
  inversion 1; congruence.
Qed.

Lemma blank_reverse s : blank isspace (reverse s) ↔ blank isspace s.
Proof. unfold blank. by rewrite Forall_reverse. Qed.

(** [text.strip() == ""] holds exactly for blank text. *)
Lemma strip_nil_iff s : strip isspace s = [] ↔ blank isspace s.
Proof.
  unfold strip, rstrip. split.
  - intros H. apply lstrip_nil_iff, lstrip_blank_nil, blank_reverse, lstrip_nil_iff.
    rewrite <- (reverse_involutive (lstrip _ (reverse _))), H. done.
  - intros H. apply lstrip_nil_iff in H. by rewrite H.
Qed.
End StripFacts.

Lemma collect_entities_map ents : collect_entities ents = entity_dict <$> ents.
Proof.
  unfold collect_entities.
  enough (∀ acc, fold_left (λ entities ent, entities ++ [entity_dict ent]) ents acc
                 = acc ++ (entity_dict <$> ents)) as H by apply H.
  induction ents as [|e ents IH]; intros acc; simpl.
  - by rewrite app_nil_r.
  - by rewrite IH, <- app_assoc.
Qed.

Lemma entity_dict_start ent :
  ∃ d, entity_dict ent = PDict d ∧ d !! lit "start" = Some (PInt (start_char ent))
       ∧ d !! lit "end" = Some (PInt (end_char ent)).
Proof. eexists. split; [reflexivity|]. split; by vm_compute. Qed.

Section HandlerFacts.
Variable isspace : N → bool.
Variable nlp : pystr → result (list Span).

(** The [data] of the handler for a JSON object, empty or not. *)
Lemma data_of_dict d :
  py_get (py_or (get_json_silent (BodyJson (PDict d))) (PDict ∅)) (lit "text") (PStr [])
  = Ok (default (PStr []) (d !! lit "text")).
Proof.
  unfold py_or; simpl. case_bool_decide as Hd; simpl; [|done].
  by rewrite Hd, lookup_empty.
Qed.

Lemma api_ner_dict d :
  api_ner isspace nlp (BodyJson (PDict d)) =
  match default (PStr []) (d !! lit "text") with
  | PStr s =>
      if bool_decide (strip isspace s = []) then Returned (Response error_body 400)
      else match nlp s with
           | Raise e => Raised e
           | Ok ents => Returned (Response (entities_body (collect_entities ents)) 200)
           end
  | _ => Returned (Response error_body 400)
  end.
Proof. unfold api_ner. by rewrite data_of_dict. Qed.

(** A body that is absent, is not JSON, or is a false JSON value such as
    [null], [0] or the empty array, is answered like an empty object. *)
Lemma api_ner_falsy req :
  truthy (get_json_silent req) = false →
  api_ner isspace nlp req = Returned (Response error_body 400).
Proof.
  intros H. unfold api_ner, py_or. by rewrite H.
Qed.


(** C2: for a [text] that is a string and not blank, the handler calls the
    extraction service on that very string.  When the call returns the
    entities [ents], the answer has status 200 and its body is the object
    with the one key [entities], whose value is the array that holds, for
    each entity of [ents] and in the order of [ents], the object with the
    keys [text], [label], [start] and [end] and the entity's values.  When
    the call raises, the exception leaves the view. *)
Theorem C2_text_is_extracted (d : gmap (list N) pyval) (s : pystr) :
  d !! lit "text" = Some (PStr s) →
  ¬ blank isspace s →
  (∀ ents, nlp s = Ok ents →
     api_ner isspace nlp (BodyJson (PDict d))
     = Returned
         (Response
            (PDict
               {[ lit "entities" :=
                    PList
                      ((λ ent,
                          PDict (<[ lit "text" := PStr (span_text ent) ]>
                                (<[ lit "label" := PStr (label_ ent) ]>
                                (<[ lit "start" := PInt (start_char ent) ]>
                                (<[ lit "end" := PInt (end_char ent) ]> ∅)))))
                         <$> ents) ]})
            200))
  ∧ (∀ e, nlp s = Raise e → api_ner isspace nlp (BodyJson (PDict d)) = Raised e).
Proof.
  intros Hd Hs.
  assert (api_ner isspace nlp (BodyJson (PDict d)) =
          match nlp s with
          | Ok ents => Returned (Response (entities_body (entity_dict <$> ents)) 200)
          | Raise e => Raised e
          end) as H.
  { rewrite api_ner_dict, Hd. simpl.
    rewrite bool_decide_eq_false_2 by (by rewrite strip_nil_iff).
    destruct (nlp s); [by rewrite collect_entities_map | done]. }
  split; [intros ents Hn | intros e Hn]; by rewrite H, Hn.
Qed.

(** Every answer with status 200 comes from a JSON object whose [text] is
    a string that is not blank, and carries the entities of that string. *)
Lemma api_ner_200_inv req body :
  api_ner isspace nlp req = Returned (Response body 200) →
  ∃ d s ents,
    req = BodyJson (PDict d) ∧ d !! lit "text" = Some (PStr s) ∧ ¬ blank isspace s ∧
    nlp s = Ok ents ∧ body = entities_body (entity_dict <$> ents).
Proof.
  intros H. destruct (truthy (get_json_silent req)) eqn:Ht.
  2:{ by rewrite api_ner_falsy in H. }
  destruct req as [| |v]; try done.
  destruct v; try (unfold api_ner, py_or in H; rewrite Ht in H; done).
  rewrite api_ner_dict in H.
  destruct (d !! lit "text") as [v|] eqn:Hd; simpl in H.
  2:{ done. }
  destruct v; try done.
  case_bool_decide as Hs; [done|].
  destruct (nlp s) as [ents|] eqn:Hn; [|done].
  exists d, s, ents. rewrite strip_nil_iff in Hs.
  rewrite <- collect_entities_map. by simplify_eq.
Qed.

(** C3: when the extraction service keeps its span contract, every entity
    of an answer with status 200 has [0 ≤ start < end ≤ length(text)],
    where [text] is the string of the request, as it was sent. *)
Theorem C3_offsets_in_text (req : req_body) (body : pyval) :
  span_contract nlp →
  api_ner isspace nlp req = Returned (Response body 200) →
  ∃ d text entities,
    req = BodyJson (PDict d) ∧ d !! lit "text" = Some (PStr text) ∧ text ≠ [] ∧
    body = entities_body entities ∧ Forall (offsets_in text) entities.
Proof.
  intros Hc H. apply api_ner_200_inv in H as (d & s & ents & -> & Hd & Hs & Hn & ->).
  exists d, s, (entity_dict <$> ents). repeat split; try done.
  - intros ->. apply Hs. constructor.
  - apply Forall_fmap. eapply Forall_impl; [by apply (Hc s)|].
    intros ent Hok. destruct (entity_dict_start ent) as (d' & E & Hst & Hen).
    exists d', (start_char ent), (end_char ent). by rewrite E.
Qed.

(** C9, at a body that is a JSON array: [data.get] raises, and the request
    is answered with status 500. *)
Theorem C9_array_body_raises :
  api_ner isspace nlp (BodyJson (PList [PInt 1])) = Raised (AttributeError (lit "get"))
  ∧ http_status (api_ner isspace nlp (BodyJson (PList [PInt 1]))) = 500.
Proof. done. Qed.

(** The same for every true JSON value that is not an object. *)
Lemma api_ner_not_dict v :
  truthy v = true → (∀ d, v ≠ PDict d) →
  api_ner isspace nlp (BodyJson v) = Raised (AttributeError (lit "get")).
Proof.
  intros Ht Hv. unfold api_ner, py_or. simpl. rewrite Ht.
  destruct v; try done. by destruct (Hv d).
Qed.
End HandlerFacts.

(** * The page *)

(** ** [escapeHtml] *)

(** The replacement of one character: [&], [<] and [>] become character
    references, every other character, the two quotes among them, stays. *)
Lemma escapeHtml_cons c s :
  escapeHtml (c :: s) =
  (if (c =? 38)%N then lit "&amp;"
   else if (c =? 60)%N then lit "&lt;"
   else if (c =? 62)%N then lit "&gt;" else [c]) ++ escapeHtml s.
Proof.
  unfold escapeHtml, replace_all. simpl flat_map at 3.
  rewrite !flat_map_app.
  destruct (c =? 38)%N eqn:H38; [done|].
  simpl flat_map at 2. destruct (c =? 60)%N eqn:H60; [done|].
  simpl. by destruct (c =? 62)%N eqn:H62.
Qed.

Lemma escapeHtml_nil : escapeHtml [] = [].
Proof. done. Qed.

(** Membership in a literal, by cases on its characters. *)
Ltac elem_of_literal H :=
  vm_compute in H;
  repeat (apply elem_of_cons in H as [->|H]; [done|]);
  by apply elem_of_nil in H.

Lemma escapeHtml_no_angle s c : c ∈ escapeHtml s → c ≠ 60%N ∧ c ≠ 62%N.
Proof.
  induction s as [|x s IH]; [by rewrite escapeHtml_nil, elem_of_nil|].
  rewrite escapeHtml_cons, elem_of_app. intros [H|H]; [|by apply IH].
  destruct (x =? 38)%N eqn:H38; [by elem_of_literal H|].
  destruct (x =? 60)%N eqn:H60; [by elem_of_literal H|].
  destruct (x =? 62)%N eqn:H62; [by elem_of_literal H|].
  apply list_elem_of_singleton in H as ->. by apply N.eqb_neq in H60, H62.
Qed.

(** ** [Array.prototype.sort] by [start] *)

Lemma sort_insert_perm {A} (cmp : A → A → Z) a l : sort_insert cmp a l ≡ₚ a :: l.
Proof.
  induction l as [|b l IH]; simpl; [done|].
  destruct (cmp a b <=? 0)%Z; [done|]. by rewrite IH, Permutation_swap.
Qed.

Lemma Array_sort_perm {A} (cmp : A → A → Z) l : Array_sort cmp l ≡ₚ l.
Proof.
  induction l as [|a l IH]; simpl; [done|]. by rewrite sort_insert_perm, IH.
Qed.

Lemma Array_sort_length {A} (cmp : A → A → Z) l : length (Array_sort cmp l) = length l.
Proof. by rewrite Array_sort_perm. Qed.

Lemma sort_insert_ascending a l : ascending l → ascending (sort_insert by_start a l).
Proof.
  unfold ascending. induction 1 as [|b l Hl IH Hb]; simpl.
  { repeat constructor. }
  unfold by_start at 1. destruct (Z.leb_spec (e_start a - e_start b) 0).
  - constructor; [by constructor|]. constructor; [lia|].
    eapply Forall_impl; [done|]. simpl. lia.
  - constructor; [done|]. rewrite sort_insert_perm. constructor; [lia | done].
Qed.

Lemma Array_sort_ascending l : ascending (Array_sort by_start l).
Proof.
  induction l as [|a l IH]; simpl; [constructor | by apply sort_insert_ascending].
Qed.

(** An array already ascending is left as it is. *)
Lemma Array_sort_id l : ascending l → Array_sort by_start l = l.
Proof.
  induction 1 as [|a l Hl IH Ha]; simpl; [done|]. rewrite IH.
  destruct Ha as [|b l Hab _]; simpl; [done|].
  unfold by_start. destruct (Z.leb_spec (e_start a - e_start b) 0); [done | lia].
Qed.

Lemma Array_sort_idemp l : Array_sort by_start (Array_sort by_start l) = Array_sort by_start l.
Proof. apply Array_sort_id, Array_sort_ascending. Qed.

(** The sort is stable: spans with one [start] keep their order. *)
Lemma sort_insert_filter k a l :
  filter (λ e, e_start e = k) (sort_insert by_start a l) = filter (λ e, e_start e = k) (a :: l).
Proof.
  induction l as [|b l IH]; simpl; [done|].
  unfold by_start at 1. destruct (Z.leb_spec (e_start a - e_start b) 0); [done|].
  rewrite !filter_cons, IH, filter_cons.
  repeat case_decide; try done; lia.
Qed.

Lemma Array_sort_stable k l :
  filter (λ e, e_start e = k) (Array_sort by_start l) = filter (λ e, e_start e = k) l.
Proof.
  induction l as [|a l IH]; simpl; [done|].
  by rewrite sort_insert_filter, !filter_cons, IH.
Qed.

(** An ascending list is determined by the order of the spans of each
    [start]. *)
Lemma ascending_unique l1 l2 :
  ascending l1 → ascending l2 →
  (∀ k, filter (λ e, e_start e = k) l1 = filter (λ e, e_start e = k) l2) →
  l1 = l2.
Proof.
  intros H1. revert l2. induction H1 as [|a l1 Hl1 IH Ha]; intros l2 H2 Hf.
  - destruct l2 as [|b l2]; [done|]. specialize (Hf (e_start b)).
    rewrite filter_nil, filter_cons_True in Hf; done.
  - destruct H2 as [|b l2 Hl2 Hb].
    { specialize (Hf (e_start a)). by rewrite filter_nil, filter_cons_True in Hf. }
    assert (a ∈ b :: l2) as Ha2.
    { eapply (list_elem_of_filter (λ e, e_start e = e_start a)).
      rewrite <- Hf, filter_cons_True by done. left. }
    assert (b ∈ a :: l1) as Hb1.
    { eapply (list_elem_of_filter (λ e, e_start e = e_start b)).
      rewrite Hf, filter_cons_True by done. left. }
    assert (e_start a = e_start b) as Hab.
    { apply Z.le_antisymm.
      - apply elem_of_cons in Hb1 as [->|Hb1]; [done|].
        by apply (proj1 (Forall_forall _ _) Ha).
      - apply elem_of_cons in Ha2 as [->|Ha2]; [done|].
        by apply (proj1 (Forall_forall _ _) Hb). }
    pose proof (Hf (e_start a)) as Hfa.
    rewrite !filter_cons_True in Hfa by done. injection Hfa as -> Hfa.
    f_equal. apply IH; [done|]. intros k. specialize (Hf k).
    rewrite !filter_cons in Hf. case_decide; [by simplify_eq | done].
Qed.

(** The result of the sort is the only ascending arrangement that keeps
    the order of spans with one [start]. *)
Lemma Array_sort_unique l l' :
  ascending l' →
  (∀ k, filter (λ e, e_start e = k) l' = filter (λ e, e_start e = k) l) →
  Array_sort by_start l = l'.
Proof.
  intros Hl' Hf. apply ascending_unique; [apply Array_sort_ascending | done|].
  intros k. by rewrite Array_sort_stable, Hf.
Qed.

(** ** [String.prototype.slice] and the gaps *)

Lemma slice_empty text a b : (0 ≤ b ≤ a)%Z → slice text a b = [].
Proof.
  intros H. unfold slice, rel_index.
  destruct (Z.ltb_spec a 0), (Z.ltb_spec b 0); try lia.
  replace (Z.to_nat _) with 0%nat by lia. done.
Qed.

(** For an offset [b] that is not negative the guard [a < b] of the source
    changes nothing: the gap is [text.slice(a, b)]. *)
Lemma plain_slice text a b : (0 ≤ b)%Z → plain text a b = slice text a b.
Proof.
  intros H. unfold plain. destruct (Z.ltb_spec a b); [done|].
  by rewrite slice_empty by lia.
Qed.

(** With a negative [start] the guard does matter. *)
Remark plain_negative_start :
  plain (lit "abcdef") 0 (-1) = [] ∧ slice (lit "abcdef") 0 (-1) = lit "abcde".
Proof. done. Qed.

(** ** The renderers *)

Section PageFacts.
Variable inherited : jsstr → option jsstr.

Local Abbreviation loop text := (fold_left (highlight_step inherited text)).

Lemma highlight_step_eq text cursor out e :
  highlight_step inherited text (cursor, out) e =
  (e_end e, out ++ escapeHtml (plain text cursor (e_start e)) ++ mark inherited text e).
Proof.
  unfold highlight_step, plain. destruct (cursor <? e_start e)%Z.
  - by rewrite <- app_assoc.
  - by rewrite escapeHtml_nil.
Qed.

(** The output of the loop grows at its end only. *)
Lemma loop_out text es : ∀ cursor out,
  loop text es (cursor, out) =
  ((loop text es (cursor, [])).1, out ++ (loop text es (cursor, [])).2).
Proof.
  induction es as [|e es IH]; intros cursor out; cbn [fold_left].
  - simpl. by rewrite app_nil_r.
  - rewrite !highlight_step_eq, (IH _ (out ++ _)), (IH _ ([] ++ _)). cbn [fst snd app].
    by rewrite <- app_assoc.
Qed.

Lemma spec_walk_app text pre rest : ∀ cursor,
  spec_walk inherited text cursor (pre ++ rest) =
  (loop text pre (cursor, [])).2
    ++ spec_walk inherited text (loop text pre (cursor, [])).1 rest.
Proof.
  induction pre as [|e pre IH]; intros cursor; [done|].
  cbn [fold_left app spec_walk].
  rewrite highlight_step_eq, loop_out, IH. cbn [fst snd app]. by rewrite <- !app_assoc.
Qed.

Lemma loop_snoc text pre e cursor :
  loop text (pre ++ [e]) (cursor, []) =
  (e_end e, (loop text pre (cursor, [])).2
              ++ escapeHtml (plain text (loop text pre (cursor, [])).1 (e_start e))
              ++ mark inherited text e).
Proof.
  rewrite fold_left_app. cbn [fold_left].
  destruct (loop text pre (cursor, [])) as [c o]. by rewrite highlight_step_eq.
Qed.

(** The loop of the source and the text after it, against the walk of the
    specification. *)
Lemma loop_spec_walk text es cursor out :
  (let '(cursor', out') := loop text es (cursor, out) in
   if (cursor' <? Z.of_nat (length text))%Z
   then out' ++ escapeHtml (slice_from text cursor')
   else out')
  = out ++ spec_walk inherited text cursor es.
Proof.
  rewrite <- (app_nil_r es) at 2.
  rewrite spec_walk_app, loop_out. cbn [fst snd spec_walk]. unfold plain, slice_from.
  destruct (_ <? _)%Z.
  - by rewrite <- app_assoc.
  - by rewrite escapeHtml_nil, app_nil_r.
Qed.

Lemma array_at_lookup l es pg : arrays pg !! l = Some es → array_at l pg = es.
Proof. unfold array_at. by intros ->. Qed.

Lemma array_at_set l es pg : array_at l (set_array l es pg) = es.
Proof. unfold array_at, set_array. simpl. by rewrite lookup_insert_eq. Qed.

(** [renderHighlighted] on an array that holds entities: the array is
    sorted in place and the panel receives the walk over the sorted
    array. *)
Lemma renderHighlighted_array text l es pg :
  arrays pg !! l = Some es → es ≠ [] →
  renderHighlighted inherited text (JArray l) pg =
  set_highlight
    (InnerHTML (div_open ++ spec_walk inherited text 0 (Array_sort by_start es) ++ div_close))
    (set_array l (Array_sort by_start es) pg).
Proof.
  intros Hl Hes. unfold renderHighlighted.
  rewrite (array_at_lookup _ _ _ Hl), array_at_set.
  destruct es as [|e es]; [done|]. simpl length. simpl Nat.eqb. cbv iota.
  pose proof (loop_spec_walk text (Array_sort by_start (e :: es)) 0 []) as H.
  destruct (loop text _ _) as [c o]. by rewrite H.
Qed.

Lemma renderHighlighted_empty text entities pg :
  no_entities entities pg →
  renderHighlighted inherited text entities pg = set_highlight (TextContent text) pg.
Proof.
  destruct entities as [| |l]; try done. simpl. intros H.
  by rewrite (array_at_lookup _ _ _ H).
Qed.

(** What [renderHighlighted] leaves in the array. *)
Lemma renderHighlighted_arrays text l es pg :
  arrays pg !! l = Some es →
  arrays (renderHighlighted inherited text (JArray l) pg) !! l
  = Some (Array_sort by_start es).
Proof.
  intros Hl. destruct es as [|e es].
  - by rewrite (renderHighlighted_empty _ (JArray l)).
  - rewrite (renderHighlighted_array _ _ _ _ Hl) by done.
    cbn [arrays set_highlight set_array]. by rewrite lookup_insert_eq.
Qed.

Lemma table_rows es : ∀ html,
  fold_left (λ html e, html ++ table_row e) es html = html ++ concat (table_row <$> es).
Proof.
  induction es as [|e es IH]; intros html; simpl.
  - by rewrite app_nil_r.
  - by rewrite IH, <- app_assoc.
Qed.

(** [renderEntitiesTable] lists the array as it is when it is called. *)
Lemma renderEntitiesTable_array l es pg :
  arrays pg !! l = Some es →
  renderEntitiesTable (JArray l) pg = set_entitiesDiv (InnerHTML (spec_table es)) pg.
Proof.
  intros Hl. unfold renderEntitiesTable. rewrite (array_at_lookup _ _ _ Hl).
  destruct es as [|e es]; [done|]. simpl length. simpl Nat.eqb. cbv iota.
  by rewrite table_rows, <- app_assoc.
Qed.

Lemma spec_escape_escapeHtml s : spec_escape s = escapeHtml s.
Proof.
  induction s as [|c s IH]; [done|].
  rewrite escapeHtml_cons, <- IH. done.
Qed.

Lemma spec_render_spec_walk text spans : ∀ cursor,
  spec_render inherited text cursor spans = spec_walk inherited text cursor spans.
Proof.
  induction spans as [|e rest IH]; intros cursor; cbn [spec_render spec_walk].
  - apply spec_escape_escapeHtml.
  - rewrite IH, !spec_escape_escapeHtml. unfold mark, spec_highlight, mark_open, mark_label.
    by rewrite <- !app_assoc.
Qed.

(** C4: on a span list that is not empty, the highlight renderer sorts
    the spans ascending by [start] and the panel receives, inside its
    [div], what the algorithm of the specification emits on the sorted
    spans from cursor 0: per span the plain text from the cursor to the
    span's start with [&], [<] and [>] escaped, the [mark] element around
    the escaped substring [text[span.start:span.end]] with the span's
    label, the cursor moved to the span's end, and after the last span
    the escaped plain text up to the end of the text. *)
Theorem C4_sort_then_walk (text : jsstr) (l : positive) (es : list Entity) (pg : page) :
  arrays pg !! l = Some es → es ≠ [] →
  let sorted := Array_sort by_start es in
  sorted ≡ₚ es ∧ ascending sorted ∧
  highlight (renderHighlighted inherited text (JArray l) pg)
  = InnerHTML (div_open ++ spec_render inherited text 0 sorted ++ div_close).
Proof.
  intros Hl Hes sorted. split; [apply Array_sort_perm|].
  split; [apply Array_sort_ascending|].
  by rewrite (renderHighlighted_array _ _ _ _ Hl Hes), spec_render_spec_walk.
Qed.

(** C5, as the code has it: the table renderer lists the array it is
    given in the order it has at that moment; in the analyze flow the
    highlight renderer has sorted that very array before, so the rows are
    ascending by [start], and they are in the order of the service when
    that order is ascending already. *)
Theorem C5_table_lists_sorted_array (l : positive) (es : list Entity) (pg : page) :
  arrays pg !! l = Some es →
  entitiesDiv (renderEntitiesTable (JArray l) pg) = InnerHTML (spec_table es)
  ∧ entitiesDiv (show_response inherited (JArray l) pg)
    = InnerHTML (spec_table (Array_sort by_start es))
  ∧ (ascending es →
     entitiesDiv (show_response inherited (JArray l) pg) = InnerHTML (spec_table es)).
Proof.
  intros Hl.
  assert (entitiesDiv (show_response inherited (JArray l) pg)
          = InnerHTML (spec_table (Array_sort by_start es))) as H.
  { unfold show_response.
    by rewrite (renderEntitiesTable_array _ _ _ (renderHighlighted_arrays _ _ _ _ Hl)). }
  split; [by rewrite (renderEntitiesTable_array _ _ _ Hl)|].
  split; [done|]. intros Hes. by rewrite H, Array_sort_id.
Qed.

(** Rendering an ascending arrangement of the spans that keeps the order
    of spans with one [start] gives the panel of rendering the spans as
    they come. *)
Lemma presorted_stable_same_output text l l' es es' pg pg' :
  arrays pg !! l = Some es → arrays pg' !! l' = Some es' →
  ascending es' →
  (∀ k, filter (λ e, e_start e = k) es' = filter (λ e, e_start e = k) es) →
  highlight (renderHighlighted inherited text (JArray l) pg)
  = highlight (renderHighlighted inherited text (JArray l') pg').
Proof.
  intros Hl Hl' Has Hf.
  pose proof (Array_sort_unique es es' Has Hf) as Hs.
  destruct (decide (es = [])) as [->|Hes].
  - simpl in Hs. subst es'.
    by rewrite (renderHighlighted_empty _ (JArray l)), (renderHighlighted_empty _ (JArray l')).
  - rewrite (renderHighlighted_array _ _ _ _ Hl Hes).
    rewrite (renderHighlighted_array _ _ _ _ Hl').
    + by rewrite (Array_sort_id es'), Hs.
    + intros ->. apply Hes. apply (f_equal length) in Hs.
      rewrite Array_sort_length in Hs. by destruct es.
Qed.

(** C6, as the code has it: rendering the spans as they come gives the
    panel of rendering any arrangement of the same spans that is ascending
    by [start] and keeps the spans of one [start] in the order they came
    in. *)
Theorem C6_presorted_same_output
    (text : jsstr) (l l' : positive) (es es' : list Entity) (pg pg' : page) :
  arrays pg !! l = Some es →
  arrays pg' !! l' = Some es' →
  es' ≡ₚ es →
  ascending es' →
  (∀ k, filter (λ e, e_start e = k) es' = filter (λ e, e_start e = k) es) →
  highlight (renderHighlighted inherited text (JArray l) pg)
  = highlight (renderHighlighted inherited text (JArray l') pg').
Proof.
  intros Hl Hl' _ Has Hf. by eapply presorted_stable_same_output.
Qed.
(** C7: with no entity to show, the panel receives the text itself as
    text content, which displays as the escaped text does; no markup is
    given to it. *)
Theorem C7_no_entities_plain_text (text : jsstr) (entities : jsval) (pg : page) :
  no_entities entities pg →
  renderHighlighted inherited text entities pg = set_highlight (TextContent text) pg
  ∧ as_markup (highlight (renderHighlighted inherited text entities pg)) = escapeHtml text.
Proof. intros H. by rewrite renderHighlighted_empty. Qed.

(** C8: where, after sorting, a span [b] starts before the end of the
    span [a] in front of it, nothing is cut: the loop appends the mark of
    [b] with the whole of [text.slice(b.start, b.end)] to what it had
    after [a], sets the cursor to [b.end], and goes on from there. *)
Theorem C8_overlap_not_resolved
    (text : jsstr) (l : positive) (es pre post : list Entity) (a b : Entity) (pg : page) :
  arrays pg !! l = Some es →
  Array_sort by_start es = pre ++ a :: b :: post →
  (e_start b < e_end a)%Z →
  let out_a := (fold_left (highlight_step inherited text) (pre ++ [a]) (0%Z, [])).2 in
  let mark_b :=
    mark_open (bg_of inherited (e_label b))
      ++ escapeHtml (slice text (e_start b) (e_end b)) ++ mark_label (e_label b) in
  fold_left (highlight_step inherited text) (pre ++ [a; b]) (0%Z, [])
  = (e_end b, out_a ++ mark_b)
  ∧ highlight (renderHighlighted inherited text (JArray l) pg)
    = InnerHTML (div_open ++ (out_a ++ mark_b ++ spec_walk inherited text (e_end b) post)
                   ++ div_close).
Proof.
  intros Hl Hs Hab out_a mark_b.
  assert (plain text (e_end a) (e_start b) = []) as Hgap.
  { unfold plain. destruct (Z.ltb_spec (e_end a) (e_start b)); [lia | done]. }
  split.
  - replace (pre ++ [a; b]) with ((pre ++ [a]) ++ [b]) by by rewrite <- app_assoc.
    rewrite loop_snoc. rewrite (loop_snoc text pre a) at 2.
    cbn [fst]. by rewrite Hgap, escapeHtml_nil.
  - rewrite (renderHighlighted_array _ _ _ _ Hl).
    2:{ intros ->. by destruct pre. }
    rewrite Hs. replace (pre ++ a :: b :: post) with ((pre ++ [a]) ++ b :: post)
      by by rewrite <- app_assoc.
    rewrite spec_walk_app. rewrite (loop_snoc text pre a) at 2.
    cbn [fst spec_walk]. rewrite Hgap, escapeHtml_nil. cbn [app].
    by unfold mark.
Qed.

(** C10: [escapeHtml] replaces [&], [<] and [>] and leaves every other
    character, the two quotes among them; in the panel the gap before an
    entity and the entity's substring have gone through it, and the label
    stands between the brackets as it came. *)
Theorem C10_label_not_escaped
    (text : jsstr) (l : positive) (es : list Entity) (e : Entity) (pg : page) :
  arrays pg !! l = Some es → e ∈ es →
  (∀ c s, escapeHtml (c :: s) =
          (if (c =? 38)%N then lit "&amp;"
           else if (c =? 60)%N then lit "&lt;"
           else if (c =? 62)%N then lit "&gt;" else [c]) ++ escapeHtml s)
  ∧ (∀ s c, c ∈ escapeHtml s → c ≠ 60%N ∧ c ≠ 62%N)
  ∧ escapeHtml dq = dq ∧ escapeHtml (lit "'") = lit "'"
  ∧ ∃ pre post,
      Array_sort by_start es = pre ++ e :: post ∧
      let before := fold_left (highlight_step inherited text) pre (0%Z, []) in
      highlight (renderHighlighted inherited text (JArray l) pg)
      = InnerHTML
          (div_open
             ++ (before.2
                   ++ escapeHtml (plain text before.1 (e_start e))
                   ++ mark_open (bg_of inherited (e_label e))
                   ++ escapeHtml (slice text (e_start e) (e_end e))
                   ++ lit " <span class=" ++ dq ++ lit "label" ++ dq ++ lit ">["
                   ++ e_label e
                   ++ lit "]</span></mark>"
                   ++ spec_walk inherited text (e_end e) post)
             ++ div_close).
Proof.
  intros Hl He.
  split; [apply escapeHtml_cons|]. split; [apply escapeHtml_no_angle|].
  split; [done|]. split; [done|].
  assert (e ∈ Array_sort by_start es) as He' by by rewrite Array_sort_perm.
  apply list_elem_of_split in He' as (pre & post & Hs).
  exists pre, post. split; [done|]. intros before.
  rewrite (renderHighlighted_array _ _ _ _ Hl).
  2:{ intros ->. by apply elem_of_nil in He. }
  rewrite Hs, spec_walk_app. cbn [spec_walk]. unfold mark, mark_label.
  by rewrite <- !app_assoc.
Qed.
End PageFacts.

(** ** Spans with one [start] *)

Lemma filter_start_NoDup k es :
  NoDup (e_start <$> es) → (length (filter (λ e, e_start e = k) es) ≤ 1)%nat.
Proof.
  induction es as [|a es IH]; simpl; [lia|].
  rewrite NoDup_cons, filter_cons. intros [Ha Hes]. case_decide as Hk; [|by apply IH].
  destruct (filter _ es) as [|x xs] eqn:Hf; [simpl; lia|]. exfalso. apply Ha.
  assert (x ∈ filter (λ e, e_start e = k) es) as Hx by (rewrite Hf; left).
  apply list_elem_of_filter in Hx as [Hxk Hx].
  rewrite Hk, <- Hxk. by apply list_elem_of_fmap_2.
Qed.

(** When no two spans start at one offset, every ascending arrangement of
    the spans renders as the spans do. *)
Lemma presorted_distinct_same_output inherited text l l' es es' pg pg' :
  arrays pg !! l = Some es → arrays pg' !! l' = Some es' →
  es' ≡ₚ es → ascending es' → NoDup (e_start <$> es) →
  highlight (renderHighlighted inherited text (JArray l) pg)
  = highlight (renderHighlighted inherited text (JArray l') pg').
Proof.
  intros Hl Hl' Hp Has Hnd. eapply presorted_stable_same_output; try done.
  intros k. pose proof (filter_start_NoDup k es Hnd) as Hlen.
  assert (filter (λ e, e_start e = k) es' ≡ₚ filter (λ e, e_start e = k) es) as Hpf
    by by rewrite Hp.
  destruct (filter _ es) as [|x [|y ys]]; simpl in Hlen; try lia.
  - by apply Permutation_nil_r.
  - by apply Permutation_singleton_r.
Qed.

(** Among spans with one [start] the order given does show. *)
Remark equal_starts_order_shows :
  ascending [tom; tom_and] ∧ ascending [tom_and; tom] ∧
  highlight (renderHighlighted nothing_inherited sample_text (JArray 1)
               (sample_page [tom; tom_and]))
  ≠ highlight (renderHighlighted nothing_inherited sample_text (JArray 1)
                 (sample_page [tom_and; tom])).
Proof.
  split; [|split].
  - repeat constructor; simpl; lia.
  - repeat constructor; simpl; lia.
  - vm_compute. discriminate.
Qed.

(** * The statements at sample inputs *)

Lemma first_char_nlp_contract : span_contract first_char_nlp.
Proof.
  intros [|c text] ents H; simpl in H; simplify_eq; [constructor|].
  constructor; [|constructor]. unfold span_ok. simpl. lia.
Qed.


Lemma C2_witness :
  api_ner py_isspace first_char_nlp (BodyJson (PDict {[ lit "text" := PStr (lit "Tom") ]}))
  = Returned
      (Response
         (PDict
            {[ lit "entities" :=
                 PList
                   [ PDict (<[ lit "text" := PStr (lit "T") ]>
                           (<[ lit "label" := PStr (lit "X") ]>
                           (<[ lit "start" := PInt 0 ]>
                           (<[ lit "end" := PInt 1 ]> ∅)))) ] ]})
         200).
Proof.
  refine (proj1 (C2_text_is_extracted py_isspace first_char_nlp
                   {[ lit "text" := PStr (lit "Tom") ]} (lit "Tom") _ _)
            [mkSpan (lit "T") (lit "X") 0 1] _).
  - reflexivity.
  - intros H. inversion H. discriminate.
  - reflexivity.
Defined.

Lemma C3_witness :
  ∃ d text entities,
    BodyJson (PDict {[ lit "text" := PStr (lit "Tom") ]}) = BodyJson (PDict d)
    ∧ d !! lit "text" = Some (PStr text) ∧ text ≠ []
    ∧ entities_body [entity_dict (mkSpan (lit "T") (lit "X") 0 1)] = entities_body entities
    ∧ Forall (offsets_in text) entities.
Proof.
  apply (C3_offsets_in_text py_isspace first_char_nlp).
  - exact first_char_nlp_contract.
  - vm_compute. reflexivity.
Defined.

Lemma C4_witness :
  let sorted := Array_sort by_start [rome; tom; ann] in
  sorted ≡ₚ [rome; tom; ann] ∧ ascending sorted ∧
  highlight (renderHighlighted nothing_inherited sample_text (JArray 1)
               (sample_page [rome; tom; ann]))
  = InnerHTML (div_open ++ spec_render nothing_inherited sample_text 0 sorted ++ div_close).
Proof.
  apply (C4_sort_then_walk nothing_inherited sample_text 1 [rome; tom; ann]
           (sample_page [rome; tom; ann])).
  - reflexivity.
  - discriminate.
Defined.

(** C5, as the specification has it, fails: the service returned [rome]
    before [tom], and the table of the analyze flow lists [tom] first. *)
Lemma C5_table_not_in_service_order :
  entitiesDiv (show_response nothing_inherited (JArray 1) (sample_page [rome; tom]))
  = InnerHTML (spec_table [tom; rome])
  ∧ entitiesDiv (show_response nothing_inherited (JArray 1) (sample_page [rome; tom]))
    ≠ InnerHTML (spec_table [rome; tom]).
Proof.
  split.
  - vm_compute. reflexivity.
  - vm_compute. discriminate.
Qed.

Lemma C5_witness :
  entitiesDiv (renderEntitiesTable (JArray 1) (sample_page [rome; tom]))
  = InnerHTML (spec_table [rome; tom])
  ∧ entitiesDiv (show_response nothing_inherited (JArray 1) (sample_page [rome; tom]))
    = InnerHTML (spec_table (Array_sort by_start [rome; tom]))
  ∧ (ascending [rome; tom] →
     entitiesDiv (show_response nothing_inherited (JArray 1) (sample_page [rome; tom]))
     = InnerHTML (spec_table [rome; tom])).
Proof.
  apply (C5_table_lists_sorted_array nothing_inherited 1 [rome; tom]
           (sample_page [rome; tom])).
  reflexivity.
Defined.

(** C6, as the specification has it, fails: [tom_and] before [tom] is an
    ascending arrangement of the spans [tom], [tom_and], which start at
    one offset, and it renders otherwise than they do. *)
Lemma C6_equal_starts_render_differently :
  [tom_and; tom] ≡ₚ [tom; tom_and] ∧ ascending [tom_and; tom]
  ∧ highlight (renderHighlighted nothing_inherited sample_text (JArray 1)
                 (sample_page [tom; tom_and]))
    ≠ highlight (renderHighlighted nothing_inherited sample_text (JArray 1)
                   (sample_page [tom_and; tom])).
Proof.
  split; [apply Permutation_swap|]. split.
  - repeat constructor; simpl; lia.
  - vm_compute. discriminate.
Qed.

Lemma C6_witness :
  highlight (renderHighlighted nothing_inherited sample_text (JArray 1)
               (sample_page [rome; tom; ann]))
  = highlight (renderHighlighted nothing_inherited sample_text (JArray 1)
                 (sample_page [tom; ann; rome])).
Proof.
  apply (C6_presorted_same_output nothing_inherited sample_text 1 1
           [rome; tom; ann] [tom; ann; rome]).
  - reflexivity.
  - reflexivity.
  - apply (Array_sort_perm by_start [rome; tom; ann]).
  - apply (Array_sort_ascending [rome; tom; ann]).
  - intros k. apply (Array_sort_stable k [rome; tom; ann]).
Defined.

Lemma C7_witness :
  renderHighlighted nothing_inherited sample_text (JArray 1) (sample_page [])
  = set_highlight (TextContent sample_text) (sample_page [])
  ∧ as_markup (highlight (renderHighlighted nothing_inherited sample_text (JArray 1)
                            (sample_page [])))
    = escapeHtml sample_text.
Proof.
  apply (C7_no_entities_plain_text nothing_inherited sample_text (JArray 1) (sample_page [])).
  reflexivity.
Defined.

Lemma C8_witness :
  let out_a := (fold_left (highlight_step nothing_inherited sample_text) [tom_and] (0%Z, [])).2 in
  let mark_b :=
    mark_open (bg_of nothing_inherited (e_label and_ann))
      ++ escapeHtml (slice sample_text 4 11) ++ mark_label (e_label and_ann) in
  fold_left (highlight_step nothing_inherited sample_text) [tom_and; and_ann] (0%Z, [])
  = (11%Z, out_a ++ mark_b)
  ∧ highlight (renderHighlighted nothing_inherited sample_text (JArray 1)
                 (sample_page [and_ann; tom_and]))
    = InnerHTML (div_open ++ (out_a ++ mark_b ++ spec_walk nothing_inherited sample_text 11 [])
                   ++ div_close).
Proof.
  apply (C8_overlap_not_resolved nothing_inherited sample_text 1 [and_ann; tom_and] [] []
           tom_and and_ann (sample_page [and_ann; tom_and])).
  - reflexivity.
  - reflexivity.
  - simpl. lia.
Defined.

Lemma C10_witness :
  ∃ pre post,
    Array_sort by_start [rome; ann] = pre ++ ann :: post ∧
    let before := fold_left (highlight_step nothing_inherited sample_text) pre (0%Z, []) in
    highlight (renderHighlighted nothing_inherited sample_text (JArray 1)
                 (sample_page [rome; ann]))
    = InnerHTML
        (div_open
           ++ (before.2
                 ++ escapeHtml (plain sample_text before.1 6)
                 ++ mark_open (bg_of nothing_inherited (lit "<b>"))
                 ++ escapeHtml (slice sample_text 6 11)
                 ++ lit " <span class=" ++ dq ++ lit "label" ++ dq ++ lit ">["
                 ++ lit "<b>"
                 ++ lit "]</span></mark>"
                 ++ spec_walk nothing_inherited sample_text 11 post)
           ++ div_close).
Proof.
  refine (proj2 (proj2 (proj2 (proj2
    (C10_label_not_escaped nothing_inherited sample_text 1 [rome; ann] ann
       (sample_page [rome; ann]) _ _))))).
  - reflexivity.
  - apply list_elem_of_further, list_elem_of_here.
Defined.

(** ** Scenarios of the specification *)

(** The empty text, a body that is absent and a body that is not JSON are
    answered with status 400. *)
Example empty_text_is_400 :
  api_ner py_isspace first_char_nlp (BodyJson (PDict {[ lit "text" := PStr [] ]}))
  = Returned (Response error_body 400)
  ∧ api_ner py_isspace first_char_nlp BodyAbsent = Returned (Response error_body 400)
  ∧ api_ner py_isspace first_char_nlp BodyInvalid = Returned (Response error_body 400).
Proof. done. Qed.

(** The spans [{start:0,end:5}] and [{start:3,end:8}]: the characters 3 and
    4 of the text are shown twice. *)
Example overlapping_spans_rendered_twice :
  let a := mkEntity (lit "abcde") (lit "A") 0 5 in
  let b := mkEntity (lit "defgh") (lit "B") 3 8 in
  highlight (renderHighlighted nothing_inherited (lit "abcdefghij") (JArray 1)
               (sample_page [b; a]))
  = InnerHTML (div_open
                 ++ (mark_open (lit "#f2f9ff") ++ lit "abcde" ++ mark_label (lit "A"))
                 ++ (mark_open (lit "#f2f9ff") ++ lit "defgh" ++ mark_label (lit "B"))
                 ++ lit "ij" ++ div_close).
Proof. vm_compute. reflexivity. Qed.

(** Offsets are written in decimal, with the dash of the source between
    them. *)
Example table_row_tom :
  table_row tom
  = lit "<tr><td>Tom</td><td>PERSON</td><td>0" ++ [8211%N] ++ lit "3</td></tr>".
Proof. vm_compute. reflexivity. Qed.

Example num_to_string_negative : num_to_string (-12) = lit "-12".
Proof. vm_compute. reflexivity. Qed.

(** * More on the request handler *)

Section HandlerCases.
Variable isspace : N → bool.
Variable nlp : pystr → result (list Span).

Lemma blank_dec s : {blank isspace s} + {¬ blank isspace s}.
Proof.
  destruct (decide (strip isspace s = [])) as [H|H]; [left | right];
    by rewrite <- strip_nil_iff.
Qed.

Lemma no_text_dec d :
  no_text isspace d ∨ ∃ s, d !! lit "text" = Some (PStr s) ∧ ¬ blank isspace s.
Proof.
  destruct (d !! lit "text") as [v|] eqn:Hd; [|by left; apply text_missing].
  destruct v; try (by left; eapply text_not_str).
  destruct (blank_dec s); [by left; eapply text_blank | right; eauto].
Qed.

Lemma no_text_not_usable d s :
  no_text isspace d → d !! lit "text" = Some (PStr s) → blank isspace s.
Proof.
  intros [H | v H Hv | s' H Hs'] Hd; rewrite Hd in H; simplify_eq; [|done].
  by destruct (Hv s).
Qed.

Lemma api_ner_no_text d :
  no_text isspace d →
  api_ner isspace nlp (BodyJson (PDict d)) = Returned (Response error_body 400).
Proof.
  intros H. rewrite api_ner_dict. destruct H as [H | v H Hv | s H Hs]; rewrite H; simpl.
  - done.
  - destruct v; try done. by destruct (Hv s).
  - rewrite bool_decide_eq_true_2; [done|]. by apply strip_nil_iff.
Qed.

Lemma api_ner_usable d s :
  d !! lit "text" = Some (PStr s) → ¬ blank isspace s →
  api_ner isspace nlp (BodyJson (PDict d)) =
  match nlp s with
  | Ok ents => Returned (Response (entities_body (entity_dict <$> ents)) 200)
  | Raise e => Raised e
  end.
Proof.
  intros Hd Hs. rewrite api_ner_dict, Hd. simpl.
  rewrite bool_decide_eq_false_2 by (by rewrite strip_nil_iff).
  destruct (nlp s); [by rewrite collect_entities_map | done].
Qed.

Lemma request_kind_total req : request_kind isspace req.
Proof.
  destruct (truthy (get_json_silent req)) eqn:Ht; [|by apply kind_falsy].
  destruct req as [| |v]; try done.
  destruct v; try (by eapply kind_not_dict).
  destruct (no_text_dec d) as [H|(s & H & Hs)];
    [by eapply kind_no_text | by eapply kind_usable].
Qed.

(** The handler answers 400 exactly for a body that is absent, not JSON or
    a false JSON value, and for a JSON object without a usable [text]. *)
Theorem api_ner_400_iff (req : req_body) :
  http_status (api_ner isspace nlp req) = 400 ↔
  truthy (get_json_silent req) = false
  ∨ ∃ d, req = BodyJson (PDict d) ∧ no_text isspace d.
Proof.
  split.
  - intros H. destruct (request_kind_total req) as [Ht | v -> Ht Hv | d -> Hd | d s -> Hd Hs].
    + by left.
    + by rewrite api_ner_not_dict in H.
    + right. eauto.
    + rewrite (api_ner_usable _ _ Hd Hs) in H. by destruct (nlp s).
  - intros [Ht | (d & -> & Hd)].
    + by rewrite api_ner_falsy.
    + by rewrite api_ner_no_text.
Qed.

(** The handler answers 200 exactly for a JSON object whose [text] is a
    string that is not blank and on which the service returns. *)
Theorem api_ner_200_iff (req : req_body) :
  http_status (api_ner isspace nlp req) = 200 ↔
  ∃ d s ents,
    req = BodyJson (PDict d) ∧ d !! lit "text" = Some (PStr s) ∧ ¬ blank isspace s ∧
    nlp s = Ok ents.
Proof.
  split.
  - intros H. destruct (request_kind_total req) as [Ht | v -> Ht Hv | d -> Hd | d s -> Hd Hs].
    + by rewrite api_ner_falsy in H.
    + by rewrite api_ner_not_dict in H.
    + by rewrite api_ner_no_text in H.
    + rewrite (api_ner_usable _ _ Hd Hs) in H.
      destruct (nlp s) as [ents|] eqn:Hn; [|done]. by exists d, s, ents.
  - intros (d & s & ents & -> & Hd & Hs & Hn).
    by rewrite (api_ner_usable _ _ Hd Hs), Hn.
Qed.

(** An exception leaves the view in two cases only: [data.get] on a true
    JSON value that is not an object, and a call of the service that
    raises. *)
Theorem api_ner_raises_iff (req : req_body) (e : exc) :
  api_ner isspace nlp req = Raised e ↔
  (∃ v, req = BodyJson v ∧ truthy v = true ∧ (∀ d, v ≠ PDict d)
        ∧ e = AttributeError (lit "get"))
  ∨ (∃ d s, req = BodyJson (PDict d) ∧ d !! lit "text" = Some (PStr s)
            ∧ ¬ blank isspace s ∧ nlp s = Raise e).
Proof.
  split.
  - intros H. destruct (request_kind_total req) as [Ht | v -> Ht Hv | d -> Hd | d s -> Hd Hs].
    + by rewrite api_ner_falsy in H.
    + rewrite api_ner_not_dict in H by done. left. exists v. by simplify_eq.
    + by rewrite api_ner_no_text in H.
    + rewrite (api_ner_usable _ _ Hd Hs) in H. right. exists d, s.
      destruct (nlp s); by simplify_eq.
  - intros [(v & -> & Ht & Hv & ->) | (d & s & -> & Hd & Hs & Hn)].
    + by apply api_ner_not_dict.
    + by rewrite (api_ner_usable _ _ Hd Hs), Hn.
Qed.

(** Of a JSON object the handler reads the [text] field and nothing else. *)
Theorem api_ner_reads_text_only (d d' : gmap (list N) pyval) :
  d !! lit "text" = d' !! lit "text" →
  api_ner isspace nlp (BodyJson (PDict d)) = api_ner isspace nlp (BodyJson (PDict d')).
Proof. intros H. by rewrite !api_ner_dict, H. Qed.
End HandlerCases.

(** ** The serialization of the entities *)

Lemma entity_dict_lookups ent :
  ∃ d, entity_dict ent = PDict d
       ∧ d !! lit "text" = Some (PStr (span_text ent))
       ∧ d !! lit "label" = Some (PStr (label_ ent))
       ∧ d !! lit "start" = Some (PInt (start_char ent))
       ∧ d !! lit "end" = Some (PInt (end_char ent))
       ∧ dom d = {[ lit "text"; lit "label"; lit "start"; lit "end" ]}.
Proof.
  eexists. split; [reflexivity|]. repeat split; by vm_compute.
Qed.

Lemma entity_dict_inj ent ent' : entity_dict ent = entity_dict ent' → ent = ent'.
Proof.
  intros H.
  destruct (entity_dict_lookups ent) as (d & E & Ht & Hl & Hs & He & _).
  destruct (entity_dict_lookups ent') as (d' & E' & Ht' & Hl' & Hs' & He' & _).
  rewrite E, E' in H. injection H as ->.
  rewrite Ht in Ht'. rewrite Hl in Hl'. rewrite Hs in Hs'. rewrite He in He'.
  destruct ent, ent'; simpl in *. by simplify_eq.
Qed.

Lemma entities_body_inj entities entities' :
  entities_body entities = entities_body entities' → entities = entities'.
Proof.
  intros H.
  apply (f_equal (λ v, match v with PDict m => m !! lit "entities" | _ => None end)) in H.
  unfold entities_body in H. cbv beta iota in H.
  rewrite !lookup_singleton_eq in H. by simplify_eq.
Qed.

(** Each object of the answer has the four keys [text], [label], [start]
    and [end] and no other, and the answer determines the entities of the
    service: none is dropped, merged or reordered. *)
Theorem entities_body_lossless (ents ents' : list Span) :
  entities_body (collect_entities ents) = entities_body (collect_entities ents') →
  ents = ents'
  ∧ Forall (λ j, ∃ d, j = PDict d
                   ∧ dom d = {[ lit "text"; lit "label"; lit "start"; lit "end" ]})
      (collect_entities ents).
Proof.
  rewrite !collect_entities_map. intros H. split.
  - assert (entity_dict <$> ents = entity_dict <$> ents') as Hm
      by by apply entities_body_inj.
    clear H. revert ents' Hm. induction ents as [|e ents IH]; intros [|e' ents'] Hm;
      cbn [fmap list_fmap] in Hm; try discriminate; [done|].
    pose proof (f_equal head Hm) as He. pose proof (f_equal tail Hm) as Ht.
    cbn [head tail] in He, Ht. apply (inj Some) in He.
    f_equal; [by apply entity_dict_inj | by apply IH].
  - apply Forall_fmap, Forall_forall. intros ent _. simpl.
    destruct (entity_dict_lookups ent) as (d & E & _ & _ & _ & _ & Hdom). eauto.
Qed.

(** * More on the page *)

(** ** [escapeHtml] *)

Lemma escapeHtml_app a b : escapeHtml (a ++ b) = escapeHtml a ++ escapeHtml b.
Proof. unfold escapeHtml, replace_all. by rewrite !flat_map_app. Qed.

Lemma escapeHtml_cons_special c s :
  is_special c → length (escapeHtml (c :: s)) = (length (escapeHtml s) + 4)%nat
                 ∨ length (escapeHtml (c :: s)) = (length (escapeHtml s) + 5)%nat.
Proof.
  rewrite escapeHtml_cons, length_app. intros [->| [->| ->]]; simpl; lia.
Qed.

Lemma escapeHtml_cons_plain c s : ¬ is_special c → escapeHtml (c :: s) = c :: escapeHtml s.
Proof.
  intros H. rewrite escapeHtml_cons.
  destruct (N.eqb_spec c 38) as [->|_]; [by destruct H; left|].
  destruct (N.eqb_spec c 60) as [->|_]; [by destruct H; right; left|].
  destruct (N.eqb_spec c 62) as [->|_]; [by destruct H; right; right|]. done.
Qed.

Lemma is_special_dec c : {is_special c} + {¬ is_special c}.
Proof. exact (decide (c = 38%N ∨ c = 60%N ∨ c = 62%N)). Qed.

Lemma escapeHtml_length_ge s : (length s ≤ length (escapeHtml s))%nat.
Proof.
  induction s as [|c s IH]; [done|]. destruct (is_special_dec c) as [H|H].
  - destruct (escapeHtml_cons_special c s H); simpl; lia.
  - rewrite escapeHtml_cons_plain by done. simpl. lia.
Qed.

(** Text passes [escapeHtml] unchanged exactly when it holds none of [&],
    [<] and [>]. *)
Theorem escapeHtml_plain_iff (s : jsstr) :
  escapeHtml s = s ↔ Forall (λ c, ¬ is_special c) s.
Proof.
  split.
  - induction s as [|c s IH]; intros H; [constructor|].
    destruct (is_special_dec c) as [Hc|Hc].
    + apply (f_equal length) in H. pose proof (escapeHtml_length_ge s).
      destruct (escapeHtml_cons_special c s Hc); simpl in *; lia.
    + rewrite escapeHtml_cons_plain in H by done. constructor; [done|].
      apply IH. congruence.
  - induction 1 as [|c s Hc _ IH]; [done|].
    by rewrite escapeHtml_cons_plain, IH.
Qed.

(** Different texts have different escaped forms. *)
Theorem escapeHtml_inj (a b : jsstr) : escapeHtml a = escapeHtml b → a = b.
Proof.
  revert b. induction a as [|x a IH]; intros [|y b] H.
  - done.
  - apply (f_equal length) in H. pose proof (escapeHtml_length_ge (y :: b)).
    simpl in *. lia.
  - apply (f_equal length) in H. pose proof (escapeHtml_length_ge (x :: a)).
    simpl in *. lia.
  - rewrite !escapeHtml_cons in H.
    destruct (N.eqb_spec x 38) as [->|Hx38]; [|destruct (N.eqb_spec x 60) as [->|Hx60];
      [|destruct (N.eqb_spec x 62) as [->|Hx62]]];
    (destruct (N.eqb_spec y 38) as [->|Hy38]; [|destruct (N.eqb_spec y 60) as [->|Hy60];
      [|destruct (N.eqb_spec y 62) as [->|Hy62]]]);
    try vm_compute (lit _) in H; cbn [app] in H;
    first [ discriminate H
          | injection H; intros; subst; first [by f_equal; apply IH | congruence] ].
Qed.

(** ** [slice] inside the text *)

Lemma slice_inside text a b :
  (0 ≤ a ≤ b ∧ b ≤ Z.of_nat (length text))%Z →
  slice text a b = take (Z.to_nat b - Z.to_nat a) (drop (Z.to_nat a) text).
Proof.
  intros H. unfold slice, rel_index.
  destruct (Z.ltb_spec a 0), (Z.ltb_spec b 0); try lia.
  rewrite !Z.min_l by lia. f_equal. lia.
Qed.

Lemma take_drop_between (text : list N) (a b : nat) :
  (a ≤ b)%nat → take (b - a) (drop a text) ++ drop b text = drop a text.
Proof.
  intros H. replace b with (a + (b - a))%nat at 2 by lia.
  rewrite <- drop_drop. apply take_drop.
Qed.

Lemma chained_le cursor len spans : chained cursor len spans → (cursor ≤ len)%Z.
Proof.
  revert cursor. induction spans as [|e rest IH]; intros cursor; simpl; [done|].
  intros [[H1 H2] H]. apply IH in H. lia.
Qed.

(** ** The renderers, continued *)

Section PageMore.
Variable inherited : jsstr → option jsstr.

(** On chained spans the walk cuts the rest of the text into gaps and
    spans. *)
Lemma spec_walk_chained text spans : ∀ cursor,
  (0 ≤ cursor)%Z → chained cursor (Z.of_nat (length text)) spans →
  ∃ gaps tail,
    length gaps = length spans
    ∧ concat (zip_with (λ g e, g ++ slice text (e_start e) (e_end e)) gaps spans) ++ tail
      = drop (Z.to_nat cursor) text
    ∧ spec_walk inherited text cursor spans
      = concat (zip_with (λ g e, escapeHtml g ++ mark inherited text e) gaps spans)
          ++ escapeHtml tail.
Proof.
  induction spans as [|e rest IH]; intros cursor Hc Hch.
  - exists [], (drop (Z.to_nat cursor) text). simpl in Hch.
    split; [done|]. split; [done|].
    cbn [spec_walk zip_with concat app]. rewrite plain_slice by lia.
    rewrite slice_inside by lia. rewrite take_ge; [done|]. rewrite length_drop. lia.
  - destruct Hch as [[H1 H2] Hch]. pose proof (chained_le _ _ _ Hch) as Hlen.
    destruct (IH (e_end e)) as (gaps & tail & Hl & Ht & Hw); [lia | done |].
    exists (slice text cursor (e_start e) :: gaps), tail. split; [|split].
    + simpl. by rewrite Hl.
    + cbn [zip_with concat]. rewrite <- !app_assoc, Ht, !slice_inside by lia.
      rewrite (take_drop_between text (Z.to_nat (e_start e))) by lia.
      apply take_drop_between. lia.
    + cbn [spec_walk zip_with concat]. rewrite Hw, plain_slice by lia.
      by rewrite <- !app_assoc.
Qed.

(** For spans that, once sorted, follow one another inside the text, the
    panel shows the text cut into gaps and spans, each character once and
    in order: every gap escaped, every span inside its mark, the rest of
    the text escaped at the end. *)
Theorem highlight_partitions_text
    (text : jsstr) (l : positive) (es : list Entity) (pg : page) :
  arrays pg !! l = Some es → es ≠ [] →
  chained 0 (Z.of_nat (length text)) (Array_sort by_start es) →
  ∃ gaps tail,
    length gaps = length es
    ∧ concat (zip_with (λ g e, g ++ slice text (e_start e) (e_end e))
                gaps (Array_sort by_start es)) ++ tail = text
    ∧ highlight (renderHighlighted inherited text (JArray l) pg)
      = InnerHTML
          (div_open
             ++ (concat (zip_with (λ g e, escapeHtml g ++ mark inherited text e)
                           gaps (Array_sort by_start es))
                   ++ escapeHtml tail)
             ++ div_close).
Proof.
  intros Hl Hes Hch.
  destruct (spec_walk_chained text _ 0 ltac:(lia) Hch) as (gaps & tail & Hlen & Ht & Hw).
  exists gaps, tail. rewrite Array_sort_length in Hlen.
  split; [done|]. split; [done|].
  by rewrite (renderHighlighted_array _ _ _ _ _ Hl Hes), Hw.
Qed.

(** What [renderHighlighted] does to the page besides the panel: the
    array it was given ends sorted, ascending by [start], with the same
    entities, those of one [start] in the order they had; no other array,
    and neither the table nor the textarea, is touched. *)
Theorem renderHighlighted_frame
    (text : jsstr) (l : positive) (es : list Entity) (pg : page) :
  arrays pg !! l = Some es →
  let pg' := renderHighlighted inherited text (JArray l) pg in
  (∃ es', arrays pg' !! l = Some es' ∧ es' ≡ₚ es ∧ ascending es'
          ∧ ∀ k, filter (λ e, e_start e = k) es' = filter (λ e, e_start e = k) es)
  ∧ (∀ l', l' ≠ l → arrays pg' !! l' = arrays pg !! l')
  ∧ entitiesDiv pg' = entitiesDiv pg ∧ inputText pg' = inputText pg.
Proof.
  intros Hl pg'. split.
  - exists (Array_sort by_start es). split; [by apply renderHighlighted_arrays|].
    split; [apply Array_sort_perm|]. split; [apply Array_sort_ascending|].
    intros k. apply Array_sort_stable.
  - subst pg'. destruct (decide (es = [])) as [->|Hes].
    + by rewrite (renderHighlighted_empty _ _ (JArray l)).
    + rewrite (renderHighlighted_array _ _ _ _ _ Hl Hes).
      cbn [arrays set_highlight set_array entitiesDiv inputText].
      split; [|done]. intros l' Hl'. by rewrite lookup_insert_ne.
Qed.

Lemma page_eq pg pg' :
  inputText pg = inputText pg' → highlight pg = highlight pg' →
  entitiesDiv pg = entitiesDiv pg' → arrays pg = arrays pg' → pg = pg'.
Proof. destruct pg, pg'; simpl; by intros -> -> -> ->. Qed.

(** Rendering a second time changes nothing: the page after two calls is
    the page after one. *)
Theorem renderHighlighted_twice (text : jsstr) (entities : jsval) (pg : page) :
  renderHighlighted inherited text entities (renderHighlighted inherited text entities pg)
  = renderHighlighted inherited text entities pg.
Proof.
  destruct entities as [| |l]; [done | done |].
  destruct (arrays pg !! l) as [es|] eqn:Hl.
  - destruct (decide (es = [])) as [->|Hes].
    + rewrite (renderHighlighted_empty _ _ (JArray l) pg) by done.
      by rewrite (renderHighlighted_empty _ _ (JArray l)).
    + rewrite (renderHighlighted_array _ _ _ _ _ Hl Hes).
      rewrite (renderHighlighted_array _ _ _ (Array_sort by_start es)).
      * rewrite Array_sort_idemp. apply page_eq; try done.
        cbn [arrays set_highlight set_array]. by rewrite insert_insert_eq.
      * cbn [arrays set_highlight set_array]. by rewrite lookup_insert_eq.
      * intros E. apply Hes. apply (f_equal length) in E.
        rewrite Array_sort_length in E. by destruct es.
  - assert (∀ p, arrays p !! l = None →
              renderHighlighted inherited text (JArray l) p = set_highlight (TextContent text) p)
      as Hnone.
    { intros p Hp. unfold renderHighlighted, array_at. by rewrite Hp. }
    rewrite (Hnone pg Hl). by rewrite Hnone.
Qed.

(** [renderEntitiesTable] writes the table and nothing else: no array is
    changed, and the highlight panel and the textarea stay. *)
Theorem renderEntitiesTable_frame (entities : jsval) (pg : page) :
  arrays (renderEntitiesTable entities pg) = arrays pg
  ∧ highlight (renderEntitiesTable entities pg) = highlight pg
  ∧ inputText (renderEntitiesTable entities pg) = inputText pg.
Proof.
  destruct entities as [| |l]; try done. unfold renderEntitiesTable.
  by destruct (length (array_at l pg) =? 0)%nat.
Qed.

Lemma new_array_spec es pg :
  let '(l, pg') := new_array es pg in
  arrays pg !! l = None ∧ arrays pg' = <[l := es]> (arrays pg)
  ∧ inputText pg' = inputText pg ∧ highlight pg' = highlight pg
  ∧ entitiesDiv pg' = entitiesDiv pg.
Proof.
  unfold new_array. repeat split. apply not_elem_of_dom, is_fresh.
Qed.

(** [clearBtn.onclick], and the first rendering of the page: the highlight
    panel shows the text of the textarea as plain text, the table panel
    reads "No entities detected.", and every array there was is still
    there, unchanged. *)
Theorem clearBtn_onclick_resets (pg : page) :
  highlight (clearBtn_onclick inherited pg) = TextContent (inputText pg)
  ∧ entitiesDiv (clearBtn_onclick inherited pg) = InnerHTML (lit "No entities detected.")
  ∧ inputText (clearBtn_onclick inherited pg) = inputText pg
  ∧ arrays pg ⊆ arrays (clearBtn_onclick inherited pg).
Proof.
  unfold clearBtn_onclick.
  pose proof (new_array_spec [] pg) as H1.
  destruct (new_array [] pg) as [l1 pg1]. destruct H1 as (Hf1 & Ha1 & Hi1 & Hh1 & He1).
  assert (arrays pg1 !! l1 = Some []) as Hl1 by by rewrite Ha1, lookup_insert_eq.
  rewrite (renderHighlighted_empty _ _ (JArray l1) pg1 Hl1).
  pose proof (new_array_spec [] (set_highlight (TextContent (inputText pg1)) pg1)) as H2.
  destruct (new_array [] _) as [l2 pg2]. destruct H2 as (Hf2 & Ha2 & Hi2 & Hh2 & He2).
  assert (arrays pg2 !! l2 = Some []) as Hl2 by by rewrite Ha2, lookup_insert_eq.
  rewrite (renderEntitiesTable_array _ _ _ Hl2).
  cbn [highlight entitiesDiv inputText arrays set_entitiesDiv set_highlight] in *.
  rewrite Ha1 in Hf2. rewrite Hh2, Hi2, Hi1, Ha2, Ha1. repeat split.
  etrans; [|by apply insert_subseteq]. by apply insert_subseteq.
Qed.
End PageMore.

(** ** The tags of the table *)

Lemma pretty_N_char_numeral x : is_numeral (N_of_ascii (pretty_N_char x)).
Proof. unfold pretty_N_char, is_numeral. repeat case_match; right; by vm_compute. Qed.

Lemma pretty_N_go_numeral x : ∀ s,
  Forall is_numeral (lit s) → Forall is_numeral (lit (pretty_N_go x s)).
Proof.
  induction (N.lt_wf_0 x) as [x _ IH]. intros s Hs.
  destruct (decide (x = 0%N)) as [->|Hx]; [by rewrite pretty_N_go_0|].
  rewrite pretty_N_go_step by lia. apply IH.
  - apply N.div_lt; lia.
  - constructor; [apply pretty_N_char_numeral | done].
Qed.

Lemma num_to_string_numeral n : Forall is_numeral (num_to_string n).
Proof.
  assert (∀ x : N, Forall is_numeral (lit (pretty x))) as HN.
  { intros x. unfold pretty, pretty_N. case_decide.
    - constructor; [right; by vm_compute | constructor].
    - apply pretty_N_go_numeral. constructor. }
  unfold num_to_string. destruct n as [|p|p].
  - constructor; [right; by vm_compute | constructor].
  - apply (HN (Npos p)).
  - change (Forall is_numeral (45%N :: lit (pretty (Npos p)))).
    constructor; [by left | apply HN].
Qed.

Lemma filter_none {A} (P : A → Prop) `{∀ x, Decision (P x)} (l : list A) :
  Forall (λ x, ¬ P x) l → filter P l = [].
Proof.
  induction 1 as [|x l Hx _ IH]; [done|]. by rewrite filter_cons_False.
Qed.

Lemma filter_angle_escapeHtml s : filter is_angle (escapeHtml s) = [].
Proof.
  apply filter_none, Forall_forall. intros c Hc [->| ->];
    by destruct (escapeHtml_no_angle _ _ Hc).
Qed.

Lemma filter_angle_num n : filter is_angle (num_to_string n) = [].
Proof.
  apply filter_none. eapply Forall_impl; [apply num_to_string_numeral|].
  intros c [->|[H1 H2]] [H|H]; try done; lia.
Qed.

Lemma filter_angle_row e :
  filter is_angle (table_row e) = concat (replicate 8 (lit "<>")).
Proof.
  unfold table_row. rewrite !filter_app, !filter_angle_escapeHtml, !filter_angle_num.
  by vm_compute.
Qed.

(** In the table the text, the label and the offsets of the entities bring
    no tag of their own: whatever the entities hold, with offsets that are
    integers a number holds exactly, the [<] and [>] of the table are those
    of the head, eight tags per row, and the foot. *)
Theorem table_tags_fixed (l : positive) (es : list Entity) (pg : page) :
  arrays pg !! l = Some es → es ≠ [] →
  Forall (λ e, safe_integer (e_start e) ∧ safe_integer (e_end e)) es →
  ∃ html,
    entitiesDiv (renderEntitiesTable (JArray l) pg) = InnerHTML html
    ∧ filter is_angle html
      = filter is_angle table_head
          ++ concat (replicate (8 * length es) (lit "<>"))
          ++ filter is_angle table_foot.
Proof.
  intros Hl Hes _. eexists. split.
  { by rewrite (renderEntitiesTable_array _ _ _ Hl). }
  destruct es as [|e0 es0]; [done|]. unfold spec_table.
  rewrite !filter_app. f_equal. f_equal.
  generalize (e0 :: es0). clear. intros es.
  induction es as [|e es IH]; [done|].
  cbn [fmap list_fmap concat length]. rewrite filter_app, IH, filter_angle_row.
  replace (8 * S (length es))%nat with (8 + 8 * length es)%nat by lia.
  by rewrite replicate_add, concat_app.
Qed.

(** ** [analyzeBtn.onclick] *)

Section AnalyzeFacts.
Variable inherited : jsstr → option jsstr.

Lemma js_or_nonempty a b : b ≠ [] → js_or a b ≠ [].
Proof. unfold js_or. by case_bool_decide. Qed.

(** The response shown for a fresh array of entities. *)
Lemma show_response_fresh text l es pg :
  arrays pg !! l = None →
  let pg' := show_response inherited (JArray l)
               (Page text (highlight pg) (entitiesDiv pg) (<[l := es]> (arrays pg))) in
  entitiesDiv pg' = InnerHTML (spec_table (Array_sort by_start es))
  ∧ highlight pg'
    = match es with
      | [] => TextContent text
      | _ => InnerHTML (div_open ++ spec_walk inherited text 0 (Array_sort by_start es)
                          ++ div_close)
      end
  ∧ inputText pg' = text
  ∧ arrays pg ⊆ arrays pg'.
Proof.
  intros Hf. set (pg1 := Page _ _ _ _). intros pg'.
  assert (arrays pg1 !! l = Some es) as Hl by apply lookup_insert_eq.
  subst pg'. unfold show_response.
  rewrite (renderEntitiesTable_array _ _ _ (renderHighlighted_arrays _ _ _ _ _ Hl)).
  cbn [entitiesDiv highlight inputText arrays set_entitiesDiv]. split; [done|].
  destruct (decide (es = [])) as [->|Hes].
  - rewrite (renderHighlighted_empty _ _ (JArray l) pg1 Hl).
    cbn [highlight inputText arrays set_highlight pg1]. repeat split.
    by apply insert_subseteq.
  - rewrite (renderHighlighted_array _ _ _ _ _ Hl Hes).
    cbn [highlight inputText arrays set_highlight set_array pg1].
    rewrite insert_insert_eq. destruct es; [done|]. repeat split.
    by apply insert_subseteq.
Qed.

(** An answer that is not [ok] (the 400 and the 500 of the server): the
    body of the answer, or "Server error" when it is empty, is shown in the
    error line, which is then never empty; the panels and the arrays stay
    as they were and the button is usable again. *)
Theorem analyze_not_ok (u : ui) (t : jsstr) :
  let u' := analyze_end inherited (NotOk t) (analyze_begin u) in
  ui_page u' = ui_page u
  ∧ errorDiv u' = TextContent (js_or t (lit "Server error"))
  ∧ errorDiv u' ≠ TextContent []
  ∧ analyzeBtn_disabled u' = false ∧ analyzeBtn_text u' = lit "Analyze".
Proof.
  assert (js_or t (lit "Server error") ≠ []) as Hne by by apply js_or_nonempty.
  intros u'.
  assert (errorDiv u' = TextContent (js_or t (lit "Server error"))) as He.
  { subst u'. unfold analyze_end, analyze_try. cbn [errorDiv err_message].
    unfold js_or at 1. by rewrite bool_decide_eq_false_2. }
  rewrite He. repeat split. by intros [= E].
Qed.

(** An exception in the [try] block: the error line shows the message of
    the exception, or its name when it has no message; the panels and the
    arrays stay as they were and the button is usable again. *)
Theorem analyze_thrown (u : ui) (err : js_error) :
  let u' := analyze_end inherited (Thrown err) (analyze_begin u) in
  ui_page u' = ui_page u
  ∧ errorDiv u' = TextContent (js_or (err_message err) (err_name err))
  ∧ analyzeBtn_disabled u' = false ∧ analyzeBtn_text u' = lit "Analyze".
Proof.
  cbn. repeat split. f_equal. unfold js_or, error_toString.
  repeat case_bool_decide; congruence.
Qed.

(** An [ok] answer: the error line is empty, the table lists the entities
    of the answer ascending by [start], the highlight panel shows the text
    of the textarea with them (as plain text when there is none), the
    arrays there were are unchanged and the button is usable again. *)
Theorem analyze_ok (u : ui) (entities : option (list Entity)) :
  let es := default [] entities in
  let text := inputText (ui_page u) in
  let u' := analyze_end inherited (OkData entities) (analyze_begin u) in
  errorDiv u' = TextContent []
  ∧ entitiesDiv (ui_page u') = InnerHTML (spec_table (Array_sort by_start es))
  ∧ highlight (ui_page u')
    = match es with
      | [] => TextContent text
      | _ => InnerHTML (div_open ++ spec_walk inherited text 0 (Array_sort by_start es)
                          ++ div_close)
      end
  ∧ inputText (ui_page u') = text
  ∧ arrays (ui_page u) ⊆ arrays (ui_page u')
  ∧ analyzeBtn_disabled u' = false ∧ analyzeBtn_text u' = lit "Analyze".
Proof.
  intros es text u'.
  assert (ui_page u' = show_response inherited (JArray (fresh (dom (arrays (ui_page u)))))
            (Page text (highlight (ui_page u)) (entitiesDiv (ui_page u))
               (<[fresh (dom (arrays (ui_page u))) := es]> (arrays (ui_page u))))) as Hp.
  { subst u' es text. by destruct entities. }
  assert (errorDiv u' = TextContent [] ∧ analyzeBtn_disabled u' = false
          ∧ analyzeBtn_text u' = lit "Analyze") as (He & Hd & Ht).
  { subst u'. unfold analyze_end. cbn [analyze_begin ui_page].
    by destruct (analyze_try _ _ _) eqn:E; [destruct entities as [?|]|]. }
  rewrite Hp.
  destruct (show_response_fresh text (fresh (dom (arrays (ui_page u)))) es (ui_page u))
    as (H1 & H2 & H3 & H4); [apply not_elem_of_dom, is_fresh|].
  done.
Qed.
End AnalyzeFacts.

(** * The start of the script *)

(** The cases of the script, by what it finds outside. *)
Ltac script_cases w :=
  destruct w as [imp pip ml dl mla];
  cbn [importable pip_succeeds model_loads download_succeeds model_loads_after];
  vm_compute;
  destruct (imp false flask), (imp false flask_cors), (imp false spacy), (imp true spacy),
    pip, ml, dl, mla.

(** The script runs at most two child processes: pip, for the package
    [spacy] alone and never for Flask, and after it the download of the
    model. *)
Theorem script_child_processes (w : world) :
  (run_script w).2 = []
  ∨ (run_script w).2 = [pip_install ["spacy"%string]]
  ∨ (run_script w).2 = [spacy_download MODEL]
  ∨ (run_script w).2 = [pip_install ["spacy"%string]; spacy_download MODEL].
Proof. script_cases w; tauto. Qed.

(** The script dies of an import error exactly when Flask cannot be
    imported at its first line; it has then run no child process. *)
Theorem script_import_error_iff (w : world) (m : py_module) :
  (run_script w).1 = Died (ImportError m) ↔ m = flask ∧ importable w false flask = false.
Proof.
  script_cases w; destruct m;
    (split;
     [ intros H; first [discriminate H | clear; intuition auto]
     | intros H; first [reflexivity | exfalso; clear -H; intuition discriminate] ]).
Qed.

(** The script reaches the application exactly when Flask can be imported,
    spaCy can be imported at once or after a pip that succeeds, and the
    model loads at once or after a download that succeeds. *)
Theorem script_started_iff (w : world) :
  (∃ have_cors, (run_script w).1 = Started have_cors) ↔
  importable w false flask = true
  ∧ (importable w false spacy = true
     ∨ (pip_succeeds w = true ∧ importable w true spacy = true))
  ∧ (model_loads w = true ∨ (download_succeeds w = true ∧ model_loads_after w = true)).
Proof.
  script_cases w;
    (split;
     [ intros [c Hc]; first [discriminate Hc | clear; intuition auto]
     | intros (Hf & Hs & Hm);
       first [ by exists true | by exists false
             | exfalso; clear -Hf Hs Hm; intuition discriminate ] ]).
Qed.

(** The script runs no child process exactly when Flask is missing, or
    spaCy is there and the model loads at the first call. *)
Theorem script_no_child_process_iff (w : world) :
  (run_script w).2 = [] ↔
  importable w false flask = false
  ∨ (importable w false spacy = true ∧ model_loads w = true).
Proof.
  script_cases w;
    (split;
     [ intros H; first [discriminate H | clear; intuition auto]
     | intros H; first [reflexivity | exfalso; clear -H; intuition discriminate] ]).
Qed.

(** * The further statements at sample inputs *)

Lemma api_ner_reads_text_only_witness :
  api_ner py_isspace first_char_nlp (BodyJson (PDict {[ lit "text" := PStr (lit "Tom") ]}))
  = api_ner py_isspace first_char_nlp
      (BodyJson (PDict (<[ lit "lang" := PStr (lit "en") ]> {[ lit "text" := PStr (lit "Tom") ]}))).
Proof.
  apply (api_ner_reads_text_only py_isspace first_char_nlp). reflexivity.
Defined.

Lemma entities_body_lossless_witness :
  [mkSpan (lit "Tom") (lit "PERSON") 0 3] = [mkSpan (lit "Tom") (lit "PERSON") 0 3]
  ∧ Forall (λ j, ∃ d, j = PDict d
                   ∧ dom d = {[ lit "text"; lit "label"; lit "start"; lit "end" ]})
      (collect_entities [mkSpan (lit "Tom") (lit "PERSON") 0 3]).
Proof.
  apply (entities_body_lossless [mkSpan (lit "Tom") (lit "PERSON") 0 3]
           [mkSpan (lit "Tom") (lit "PERSON") 0 3]).
  reflexivity.
Defined.

Lemma escapeHtml_inj_witness : lit "a<b" = lit "a<b".
Proof. apply (escapeHtml_inj (lit "a<b") (lit "a<b")). reflexivity. Defined.

Lemma highlight_partitions_text_witness :
  ∃ gaps tail,
    length gaps = length [rome; tom; ann]
    ∧ concat (zip_with (λ g e, g ++ slice sample_text (e_start e) (e_end e))
                gaps (Array_sort by_start [rome; tom; ann])) ++ tail = sample_text
    ∧ highlight (renderHighlighted nothing_inherited sample_text (JArray 1)
                   (sample_page [rome; tom; ann]))
      = InnerHTML
          (div_open
             ++ (concat (zip_with (λ g e, escapeHtml g ++ mark nothing_inherited sample_text e)
                           gaps (Array_sort by_start [rome; tom; ann]))
                   ++ escapeHtml tail)
             ++ div_close).
Proof.
  apply (highlight_partitions_text nothing_inherited sample_text 1 [rome; tom; ann]
           (sample_page [rome; tom; ann])).
  - reflexivity.
  - discriminate.
  - vm_compute. repeat split; discriminate.
Defined.

Lemma renderHighlighted_frame_witness :
  let pg' := renderHighlighted nothing_inherited sample_text (JArray 1)
               (sample_page [rome; tom]) in
  (∃ es', arrays pg' !! 1%positive = Some es' ∧ es' ≡ₚ [rome; tom] ∧ ascending es'
          ∧ ∀ k, filter (λ e, e_start e = k) es' = filter (λ e, e_start e = k) [rome; tom])
  ∧ (∀ l', l' ≠ 1%positive → arrays pg' !! l' = arrays (sample_page [rome; tom]) !! l')
  ∧ entitiesDiv pg' = entitiesDiv (sample_page [rome; tom])
  ∧ inputText pg' = inputText (sample_page [rome; tom]).
Proof.
  apply (renderHighlighted_frame nothing_inherited sample_text 1 [rome; tom]
           (sample_page [rome; tom])).
  reflexivity.
Defined.

Lemma table_tags_fixed_witness :
  ∃ html,
    entitiesDiv (renderEntitiesTable (JArray 1) (sample_page [ann; rome])) = InnerHTML html
    ∧ filter is_angle html
      = filter is_angle table_head
          ++ concat (replicate (8 * length [ann; rome]) (lit "<>"))
          ++ filter is_angle table_foot.
Proof.
  apply (table_tags_fixed 1 [ann; rome] (sample_page [ann; rome])).
  - reflexivity.
  - discriminate.
  - repeat constructor; vm_compute; discriminate.
Defined.
